(** * A shallow embedding of simple-snake-rs

    [src/direction.rs] and the core of [src/game.rs] ([Game::new],
    [Game::run], [calculate_interval], [has_collided_with_wall],
    [has_bitten_itself], [place_food]).  The modules [point], [snake] and
    [command] are declared by [main.rs] but their files are not in the
    source tree; they are modelled from the spec below.

    Integers of type [u16] and [usize] are [N] and [nat]; arithmetic that
    panics on overflow or underflow in a debug build is written with the
    checked operations [add16], [sub16], [mul16], [rem16], which return
    [None] where the Rust program panics.  The random source
    ([rand::thread_rng().gen_range]) is an oracle: a supplied list of raw
    draws. *)

From Stdlib Require Import NArith List Bool Lia String Ascii.
Import ListNotations.
Open Scope N_scope.

Notation "'let*' x := m 'in' k" :=
  (match m with Some x => k | None => None end)
  (at level 200, x name, m at level 100, k at level 200).

(** ** u16 arithmetic of a debug build *)

Definition U16_MAX : N := 65535.

Definition add16 (a b : N) : option N :=
  if a + b <=? U16_MAX then Some (a + b) else None.

Definition sub16 (a b : N) : option N :=
  if b <=? a then Some (a - b) else None.

Definition mul16 (a b : N) : option N :=
  if a * b <=? U16_MAX then Some (a * b) else None.

(** [a % b] panics when [b = 0]. *)
Definition rem16 (a b : N) : option N :=
  if b =? 0 then None else Some (a mod b).

(** [rand::Rng::gen_range(low, high)] (rand 0.7) panics when [low >= high];
    a raw draw [r] is mapped into [low..high). *)
Definition gen_range (low high r : N) : option N :=
  if high <=? low then None else Some (low + r mod (high - low)).

(** ** direction.rs *)

Inductive Direction := Up | Right | Down | Left.

Definition opposite (d : Direction) : Direction :=
  match d with
  | Up => Down
  | Right => Left
  | Down => Up
  | Left => Right
  end.

Definition direction_eqb (a b : Direction) : bool :=
  match a, b with
  | Up, Up | Right, Right | Down, Down | Left, Left => true
  | _, _ => false
  end.

(** ** point.rs *)

Record Point := mkPoint { x : N; y : N }.

Definition point_eqb (p q : Point) : bool := (x p =? x q) && (y p =? y q).

(** Modelled from the spec: [Point::transform] of the missing [point.rs]
    ("For Up/Left this subtracts; for Down/Right this adds"), on [u16]
    coordinates: an underflow below 0 is a failure ([None]). *)
Definition transform (p : Point) (d : Direction) (distance : N) : option Point :=
  match d with
  | Up => let* y' := sub16 (y p) distance in Some (mkPoint (x p) y')
  | Right => let* x' := add16 (x p) distance in Some (mkPoint x' (y p))
  | Down => let* y' := add16 (y p) distance in Some (mkPoint (x p) y')
  | Left => let* x' := sub16 (x p) distance in Some (mkPoint x' (y p))
  end.

(** ** command.rs *)

(** Modelled from the spec: the enumeration of the missing [command.rs]. *)
Inductive Command := Quit | Turn (d : Direction).

(** ** Vec operations *)

(** [Vec::remove(i)]: panics when [i] is out of bounds. *)
Fixpoint vec_remove {A} (l : list A) (i : nat) : option (list A) :=
  match l, i with
  | [], _ => None
  | _ :: t, O => Some t
  | a :: t, S i' => let* t' := vec_remove t i' in Some (a :: t')
  end.

(** ** snake.rs *)

Record Snake := mkSnake { body : list Point; direction : Direction }.

(** Modelled from the spec: the segments of [Snake::new] of the missing
    [snake.rs]: the first [i] points laid from [start] along [back], the
    [k]-th one [k] cells away. *)
Fixpoint lay_body (start : Point) (back : Direction) (i : nat)
  : option (list Point) :=
  match i with
  | O => Some []
  | S i' =>
      let* rest := lay_body start back i' in
      let* p := transform start back (N.of_nat i') in
      Some (rest ++ [p])
  end.

(** Modelled from the spec: [Snake::new] of the missing [snake.rs]:
    [length] points (at least the head) laid from [start] backward, along
    [opposite direction], one cell per segment. *)
Definition snake_new (start : Point) (length : nat) (dir : Direction)
  : option Snake :=
  let* b := lay_body start (opposite dir) (Nat.max length 1) in
  Some (mkSnake b dir).

(** Modelled from the spec: [Snake::get_head_point] is [body[0]]. *)
Definition get_head_point (s : Snake) : option Point := hd_error (body s).

(** Modelled from the spec: [Snake::set_direction] is unconditional. *)
Definition set_direction (s : Snake) (d : Direction) : Snake :=
  mkSnake (body s) d.

(** Modelled from the spec: [Snake::contains_point]. *)
Definition contains_point (s : Snake) (p : Point) : bool :=
  existsb (point_eqb p) (body s).

(** Modelled from the spec: [Snake::slither] computes the new head one cell
    ahead along the current direction, prepends it and removes the last
    element. *)
Definition slither (s : Snake) : option Snake :=
  let* h := get_head_point s in
  let* nh := transform h (direction s) 1 in
  let b := nh :: body s in
  let* b' := vec_remove b (Nat.pred (List.length b)) in
  Some (mkSnake b' (direction s)).

(** Modelled from the spec: [Snake::grow] prepends the new head computed the
    same way and keeps the last element. *)
Definition grow (s : Snake) : option Snake :=
  let* h := get_head_point s in
  let* nh := transform h (direction s) 1 in
  Some (mkSnake (nh :: body s) (direction s)).

(** ** game.rs *)

Definition MAX_INTERVAL : N := 128.
Definition MIN_INTERVAL : N := 32.
Definition MAX_SPEED : N := 8.

(** [Game] without its terminal handles ([stdout],
    [original_terminal_size]), which only the rendering uses. *)
Record Game := mkGame {
  width : N;
  height : N;
  food : option Point;
  snake : Snake;
  speed : N;
  score : N
}.

Definition set_snake (g : Game) (s : Snake) : Game :=
  mkGame (width g) (height g) (food g) s (speed g) (score g).
Definition set_food (g : Game) (f : option Point) : Game :=
  mkGame (width g) (height g) f (snake g) (speed g) (score g).
Definition set_speed (g : Game) (v : N) : Game :=
  mkGame (width g) (height g) (food g) (snake g) v (score g).
Definition set_score (g : Game) (v : N) : Game :=
  mkGame (width g) (height g) (food g) (snake g) (speed g) v.

(** [Game::new]: [r] is the raw draw of [gen_range(0, 4)]. *)
Definition game_new (w h : N) (r : N) : option Game :=
  let* k := gen_range 0 4 r in
  let dir := match k with 0 => Up | 1 => Right | 2 => Down | _ => Left end in
  let* s := snake_new (mkPoint (w / 2) (h / 2)) 3 dir in
  Some (mkGame w h None s 0 0).

(** [Game::calculate_interval], in milliseconds. *)
Definition calculate_interval (g : Game) : option N :=
  let* sp := sub16 MAX_SPEED (speed g) in
  let* m := mul16 ((MAX_INTERVAL - MIN_INTERVAL) / MAX_SPEED) sp in
  add16 MIN_INTERVAL m.

(** [Game::has_collided_with_wall]. *)
Definition has_collided_with_wall (g : Game) : option bool :=
  let* hp := get_head_point (snake g) in
  match direction (snake g) with
  | Up => Some (y hp =? 0)
  | Right => let* w1 := sub16 (width g) 1 in Some (x hp =? w1)
  | Down => let* h1 := sub16 (height g) 1 in Some (y hp =? h1)
  | Left => Some (x hp =? 0)
  end.

(** [Game::has_bitten_itself]: the clone of the body loses its last element
    ([len - 1] underflows on an empty body), then its first one. *)
Definition has_bitten_itself (g : Game) : option bool :=
  let* hp := get_head_point (snake g) in
  let* next_head_point := transform hp (direction (snake g)) 1 in
  let next_body_points := body (snake g) in
  let n := List.length next_body_points in
  let* last := (if Nat.eqb n 0 then None else Some (n - 1)%nat) in
  let* nbp1 := vec_remove next_body_points last in
  let* nbp2 := vec_remove nbp1 0 in
  Some (existsb (point_eqb next_head_point) nbp2).

(** The [loop] of [Game::place_food] over the supplied draws; [None] also
    when the draws run out before a free cell is drawn. *)
Fixpoint place_food_loop (w h : N) (s : Snake) (draws : list (N * N))
  : option Point :=
  match draws with
  | [] => None
  | (rx, ry) :: rest =>
      let* random_x := gen_range 0 w rx in
      let* random_y := gen_range 0 h ry in
      let point := mkPoint random_x random_y in
      if negb (contains_point s point) then Some point
      else place_food_loop w h s rest
  end.

Definition place_food (g : Game) (draws : list (N * N)) : option Game :=
  let* p := place_food_loop (width g) (height g) (snake g) draws in
  Some (set_food g (Some p)).

(** The input window of one tick of [Game::run]: the commands received, in
    arrival order.  [Quit] sets [done] and leaves the [while] over the
    interval (later commands are not read); [Turn(towards)] is applied when
    it differs from [direction], the heading recorded at tick start, and
    from its opposite.  Returns [done] and the snake. *)
Fixpoint poll_commands (dir : Direction) (s : Snake) (cmds : list Command)
  : bool * Snake :=
  match cmds with
  | [] => (false, s)
  | Quit :: _ => (true, s)
  | Turn towards :: rest =>
      let s' := if negb (direction_eqb dir towards)
                   && negb (direction_eqb (opposite dir) towards)
                then set_direction s towards else s in
      poll_commands dir s' rest
  end.

(** Lines 84-96 of [Game::run]: [slither], then on food [grow],
    [place_food], the score and the speed. *)
Definition advance (g : Game) (draws : list (N * N)) : option Game :=
  let* s1 := slither (snake g) in
  let g1 := set_snake g s1 in
  match food g1 with
  | Some food_point =>
      let* hp := get_head_point (snake g1) in
      if point_eqb hp food_point then
        let* s2 := grow (snake g1) in
        let* g2 := place_food (set_snake g1 s2) draws in
        let* sc := add16 (score g2) 1 in
        let g3 := set_score g2 sc in
        let* wh := mul16 (width g3) (height g3) in
        let* r := rem16 (score g3) (wh / MAX_SPEED) in
        if r =? 0 then
          let* sp := add16 (speed g3) 1 in Some (set_speed g3 sp)
        else Some g3
      else Some g1
  | None => Some g1
  end.

(** What one pass of the outer [while !done] leaves: [done], the game, and
    whether [render] was called. *)
Record Tick := mkTick { done : bool; next : Game; rendered : bool }.

(** One pass of the outer loop of [Game::run]; [None] where the program
    panics (or [place_food] has not found a cell within [draws]). *)
Definition run_tick (g : Game) (cmds : list Command) (draws : list (N * N))
  : option Tick :=
  let* _interval := calculate_interval g in
  let dir := direction (snake g) in
  let '(quit, s) := poll_commands dir (snake g) cmds in
  let g1 := set_snake g s in
  let* wall := has_collided_with_wall g1 in
  if wall then Some (mkTick true g1 false)
  else
    let* bitten := has_bitten_itself g1 in
    if bitten then Some (mkTick true g1 false)
    else
      let* g2 := advance g1 draws in
      Some (mkTick quit g2 true).

(** The states [Game::run] passes through: after [Game::new] and the first
    [place_food], and after each pass of the loop; the flag says whether the
    loop goes on. *)
Inductive reachable : Game -> bool -> Prop :=
| reach_start w h r draws g0 g1 :
    game_new w h r = Some g0 ->
    place_food g0 draws = Some g1 ->
    reachable g1 true
| reach_tick g cmds draws t :
    reachable g true ->
    run_tick g cmds draws = Some t ->
    reachable (next t) (negb (done t)).

(** An executable run: the start, then one pass per input, stopping when the
    loop ends. *)
Fixpoint run_ticks (g : Game) (inputs : list (list Command * list (N * N)))
  : option (Game * bool) :=
  match inputs with
  | [] => Some (g, true)
  | (cmds, draws) :: rest =>
      let* t := run_tick g cmds draws in
      if done t then
        match rest with [] => Some (next t, false) | _ => None end
      else run_ticks (next t) rest
  end.

Definition run_game (w h r : N) (draws0 : list (N * N))
  (inputs : list (list Command * list (N * N))) : option (Game * bool) :=
  let* g0 := game_new w h r in
  let* g1 := place_food g0 draws0 in
  run_ticks g1 inputs.

(** ** Concrete states *)

(** The state [main] starts from on its 20x20 board when [Game::new] draws
    [Right] and the first food lands on (0, 0). *)
Definition start_20x20 : option Game :=
  let* g := game_new 20 20 1 in place_food g [(0, 0)].

(** A 20x20 game heading [Right] from (10, 10) with the food one cell ahead. *)
Definition food_ahead_20x20 : Game :=
  mkGame 20 20 (Some (mkPoint 11 10))
    (mkSnake [mkPoint 10 10; mkPoint 9 10; mkPoint 8 10] Right) 0 0.

(** The inputs of a 3x5 game ([Game::new(stdout, 3, 5)], heading [Up]) that
    eats a food on ten of its eleven ticks. *)
Definition trace_3x5 : list (list Command * list (N * N)) :=
  [([Turn Left], []);
   ([Turn Up], [(1, 0)]);
   ([Turn Right], [(2, 1)]);
   ([Turn Down], [(2, 3)]);
   ([], [(1, 4)]);
   ([Turn Left], [(0, 3)]);
   ([Turn Up], [(0, 1)]);
   ([], [(1, 0)]);
   ([Turn Right], [(2, 1)]);
   ([Turn Down], [(1, 1)])].

(** ** Input: [Game::wait_for_key_event] and [Game::get_command] *)

(** crossterm's [KeyCode]; a [Char] carries its Unicode code point. *)
Inductive KeyCode :=
| KBackspace | KEnter | KLeft | KRight | KUp | KDown | KHome | KEnd
| KPageUp | KPageDown | KTab | KBackTab | KDelete | KInsert
| KF (n : N) | KChar (c : N) | KNull | KEsc.

(** crossterm's [KeyModifiers] bit flags. *)
Definition SHIFT : N := 1.
Definition CONTROL : N := 2.
Definition ALT : N := 4.

Record KeyEvent := mkKeyEvent { code : KeyCode; modifiers : N }.

(** crossterm's [Event]; the payload of a mouse event is not read. *)
Inductive Event := EvKey (k : KeyEvent) | EvMouse | EvResize (cols rows : N).

(** What the terminal gives one [poll(wait_for)] and, when it reports an
    event, the following [read()] ([None]: [read] failed). *)
Inductive PollOutcome := PollError | PollTimeout | PollReady (read : option Event).

Definition chr (a : ascii) : N := N_of_ascii a.

(** [Game::wait_for_key_event]: [poll(..).ok()?] and [read().ok()?] turn
    errors into [None]; only key events are returned. *)
Definition wait_for_key_event (o : PollOutcome) : option KeyEvent :=
  match o with
  | PollError => None
  | PollTimeout => None
  | PollReady None => None
  | PollReady (Some (EvKey key_event)) => Some key_event
  | PollReady (Some _) => None
  end.

(** [Game::get_command]. *)
Definition get_command (o : PollOutcome) : option Command :=
  let* key_event := wait_for_key_event o in
  match code key_event with
  | KChar c =>
      if (c =? chr "q") || (c =? chr "Q") then Some Quit
      else if (c =? chr "c") || (c =? chr "C") then
        if modifiers key_event =? CONTROL then Some Quit else None
      else if (c =? chr "w") || (c =? chr "W") then Some (Turn Up)
      else if (c =? chr "d") || (c =? chr "D") then Some (Turn Right)
      else if (c =? chr "s") || (c =? chr "S") then Some (Turn Down)
      else if (c =? chr "a") || (c =? chr "A") then Some (Turn Left)
      else None
  | KEsc => Some Quit
  | KUp => Some (Turn Up)
  | KRight => Some (Turn Right)
  | KDown => Some (Turn Down)
  | KLeft => Some (Turn Left)
  | _ => None
  end.

(** ** Output: the terminal commands of the drawing functions *)

(** The crossterm colours [game.rs] uses. *)
Inductive Color := Green | Cyan | Yellow | White | DarkGrey.

(** The crossterm commands [game.rs] executes on [stdout], plus raw mode. *)
Inductive TermOp :=
| MoveTo (col row : N)
| Print (s : string)
| SetForegroundColor (c : Color)
| ResetColor
| ClearAll
| Hide
| Show
| SetSize (cols rows : N)
| EnableRawMode
| DisableRawMode.

(** An idealised terminal: a grid of cells holding a character and the
    foreground colour it was printed with ([None]: the default colour); a
    printed string goes cell by cell to the right of the cursor. *)
Record Terminal := mkTerminal {
  cursor : N * N;
  fg : option Color;
  cells : N -> N -> option (ascii * option Color);
  raw : bool;
  cursor_visible : bool;
  term_size : N * N
}.

Fixpoint put_string (cl : N -> N -> option (ascii * option Color))
  (col row : N) (s : string) (c : option Color)
  : N -> N -> option (ascii * option Color) :=
  match s with
  | EmptyString => cl
  | String a s' =>
      put_string (fun i j => if (i =? col) && (j =? row) then Some (a, c)
                             else cl i j) (col + 1) row s' c
  end.

Definition exec_op (t : Terminal) (op : TermOp) : Terminal :=
  match op with
  | MoveTo c r => mkTerminal (c, r) (fg t) (cells t) (raw t) (cursor_visible t) (term_size t)
  | Print s =>
      let '(c, r) := cursor t in
      mkTerminal (c + N.of_nat (String.length s), r) (fg t)
        (put_string (cells t) c r s (fg t)) (raw t) (cursor_visible t) (term_size t)
  | SetForegroundColor c =>
      mkTerminal (cursor t) (Some c) (cells t) (raw t) (cursor_visible t) (term_size t)
  | ResetColor =>
      mkTerminal (cursor t) None (cells t) (raw t) (cursor_visible t) (term_size t)
  | ClearAll =>
      mkTerminal (cursor t) (fg t) (fun _ _ => None) (raw t) (cursor_visible t) (term_size t)
  | Hide => mkTerminal (cursor t) (fg t) (cells t) (raw t) false (term_size t)
  | Show => mkTerminal (cursor t) (fg t) (cells t) (raw t) true (term_size t)
  | SetSize c r => mkTerminal (cursor t) (fg t) (cells t) (raw t) (cursor_visible t) (c, r)
  | EnableRawMode => mkTerminal (cursor t) (fg t) (cells t) true (cursor_visible t) (term_size t)
  | DisableRawMode => mkTerminal (cursor t) (fg t) (cells t) false (cursor_visible t) (term_size t)
  end.

Definition exec_ops (t : Terminal) (ops : list TermOp) : Terminal :=
  fold_left exec_op ops t.

(** Rust's [lo..hi]. *)
Definition range (lo hi : N) : list N :=
  map (fun i => lo + N.of_nat i) (seq 0 (N.to_nat (hi - lo))).

(** [Game::draw_borders]. *)
Definition draw_borders (g : Game) : option (list TermOp) :=
  let* h2 := add16 (height g) 2 in
  let* w1 := add16 (width g) 1 in
  let* w2 := add16 (width g) 2 in
  let* h1 := add16 (height g) 1 in
  Some ([SetForegroundColor DarkGrey]
        ++ flat_map (fun y0 => [MoveTo 0 y0; Print "#"%string; MoveTo w1 y0; Print "#"%string])
             (range 0 h2)
        ++ flat_map (fun x0 => [MoveTo x0 0; Print "#"%string; MoveTo x0 h1; Print "#"%string])
             (range 0 w2)
        ++ [MoveTo 0 0; Print "#"%string; MoveTo w1 h1; Print "#"%string;
            MoveTo w1 0; Print "#"%string; MoveTo 0 h1; Print "#"%string]).

(** [Game::draw_background]. *)
Definition draw_background (g : Game) : option (list TermOp) :=
  let* h1 := add16 (height g) 1 in
  let* w1 := add16 (width g) 1 in
  Some (ResetColor
        :: flat_map (fun y0 => flat_map (fun x0 => [MoveTo x0 y0; Print " "%string])
                                 (range 1 w1))
             (range 1 h1)).

(** The loop of [Game::draw_snake] over [body_points.iter().enumerate()],
    from index [i]. *)
Fixpoint draw_segments (i : nat) (l : list Point) : option (list TermOp) :=
  match l with
  | [] => Some []
  | p :: l' =>
      let* c := add16 (x p) 1 in
      let* r := add16 (y p) 1 in
      let* rest := draw_segments (S i) l' in
      Some ([MoveTo c r; Print (if Nat.eqb i 0 then "S"%string else "s"%string)] ++ rest)
  end.

Definition snake_color (speed : N) : Color :=
  match speed mod 3 with 0 => Green | 1 => Cyan | _ => Yellow end.

(** [Game::draw_snake]. *)
Definition draw_snake (g : Game) : option (list TermOp) :=
  let* segs := draw_segments 0 (body (snake g)) in
  Some (SetForegroundColor (snake_color (speed g)) :: segs).

(** [Game::draw_food]. *)
Definition draw_food (g : Game) : option (list TermOp) :=
  match food g with
  | Some p =>
      let* c := add16 (x p) 1 in
      let* r := add16 (y p) 1 in
      Some [SetForegroundColor White; MoveTo c r; Print "A"%string]
  | None => Some [SetForegroundColor White]
  end.

(** Rust's [Display] of an unsigned integer. *)
Definition digit (n : N) : ascii := ascii_of_N (48 + n).

Fixpoint decimal_aux (fuel : nat) (n : N) (acc : string) : string :=
  match fuel with
  | O => acc
  | S f =>
      let acc' := String (digit (n mod 10)) acc in
      if n <? 10 then acc' else decimal_aux f (n / 10) acc'
  end.

Definition decimal (n : N) : string := decimal_aux (S (N.size_nat n)) n EmptyString.

(** [Game::draw_score]. *)
Definition draw_score (g : Game) : option (list TermOp) :=
  let* h2 := add16 (height g) 2 in
  Some [SetForegroundColor White; MoveTo 0 h2; Print ("Score: " ++ decimal (score g))%string].

(** [Game::render]. *)
Definition render (g : Game) : option (list TermOp) :=
  let* b := draw_borders g in
  let* bg := draw_background g in
  let* s := draw_snake g in
  let* f := draw_food g in
  let* sc := draw_score g in
  Some (b ++ bg ++ s ++ f ++ sc).

(** [Game::prepare_ui]. *)
Definition prepare_ui (g : Game) : option (list TermOp) :=
  let* c := add16 (width g) 3 in
  let* r := add16 (height g) 4 in
  Some [EnableRawMode; SetSize c r; ClearAll; Hide].

(** [Game::restore_ui], with [original_terminal_size]. *)
Definition restore_ui (original : N * N) : list TermOp :=
  [SetSize (fst original) (snd original); ClearAll; Show; ResetColor; DisableRawMode].

(** The [while !done] loop of [Game::run] with its [render] calls; [None]
    also when the inputs run out before the loop ends. *)
Fixpoint run_loop (g : Game) (t : Terminal)
  (inputs : list (list Command * list (N * N))) : option (Game * Terminal) :=
  match inputs with
  | [] => None
  | (cmds, draws) :: rest =>
      let* tk := run_tick g cmds draws in
      let* ops := (if rendered tk then render (next tk) else Some []) in
      let t' := exec_ops t ops in
      if done tk then Some (next tk, t') else run_loop (next tk) t' rest
  end.

(** [Game::new] followed by [Game::run] on a terminal [t0] of size
    [term_size t0] ([size()] at construction): the final game, the terminal
    and the line printed at the end. *)
Definition run (w h r : N) (draws0 : list (N * N))
  (inputs : list (list Command * list (N * N))) (t0 : Terminal)
  : option (Game * Terminal * string) :=
  let original_terminal_size := term_size t0 in
  let* g0 := game_new w h r in
  let* g1 := place_food g0 draws0 in
  let* p := prepare_ui g1 in
  let* r0 := render g1 in
  let* gt := run_loop g1 (exec_ops t0 (p ++ r0)) inputs in
  let '(g, t) := gt in
  let t' := exec_ops t (restore_ui original_terminal_size) in
  Some (g, t', ("Game Over! Your score is " ++ decimal (score g))%string).

(** A blank 80x24 terminal. *)
Definition blank_terminal : Terminal :=
  mkTerminal (0, 0) None (fun _ _ => None) false true (80, 24).

(** ** Lemmas on the building blocks *)

Lemma point_eqb_eq (p q : Point) : point_eqb p q = true <-> p = q.
Proof.
  destruct p as [px py], q as [qx qy]; unfold point_eqb; simpl.
  rewrite andb_true_iff, !N.eqb_eq; split.
  - intros [-> ->]; reflexivity.
  - intros E; inversion E; auto.
Qed.

Lemma existsb_point_In (p : Point) (l : list Point) :
  existsb (point_eqb p) l = true <-> In p l.
Proof.
  rewrite existsb_exists; split.
  - intros [q [Hq E]]; apply point_eqb_eq in E; subst; exact Hq.
  - intros Hp; exists p; split; [exact Hp | apply point_eqb_eq; reflexivity].
Qed.

Lemma vec_remove_last {A} (l : list A) :
  l <> [] -> vec_remove l (Nat.pred (List.length l)) = Some (removelast l).
Proof.
  induction l as [|a t IH]; intros Hne; [congruence|].
  destruct t as [|b t'].
  - reflexivity.
  - simpl in *. rewrite IH by discriminate. reflexivity.
Qed.

Lemma nth_error_removelast {A} (l : list A) (i : nat) :
  (i < List.length l - 1)%nat -> nth_error (removelast l) i = nth_error l i.
Proof.
  intros Hi. destruct l as [|a t] using rev_ind; [simpl in Hi; lia|].
  rewrite removelast_last, nth_error_app1; [reflexivity|].
  rewrite length_app in Hi; simpl in Hi; lia.
Qed.

Lemma length_removelast {A} (l : list A) :
  l <> [] -> List.length (removelast l) = (List.length l - 1)%nat.
Proof.
  intros Hne. destruct l as [|a t] using rev_ind; [congruence|].
  rewrite removelast_last, length_app; simpl; lia.
Qed.

Lemma poll_commands_body (dir : Direction) (s : Snake) (cmds : list Command) :
  body (snd (poll_commands dir s cmds)) = body s.
Proof.
  revert s; induction cmds as [|[|t] rest IH]; intros s; simpl; try reflexivity.
  rewrite IH. destruct (_ && _); reflexivity.
Qed.

Lemma slither_length (s s' : Snake) :
  slither s = Some s' -> List.length (body s') = List.length (body s).
Proof.
  unfold slither, get_head_point.
  destruct (body s) as [|h t] eqn:Eb; simpl; [discriminate|].
  destruct (transform h (direction s) 1) as [nh|]; [|discriminate].
  pose proof (vec_remove_last (nh :: h :: t) ltac:(discriminate)) as R.
  simpl in R; rewrite R.
  intros E; inversion E; subst; simpl.
  pose proof (length_removelast (h :: t) ltac:(discriminate)) as L.
  simpl in L; destruct t; simpl in *; lia.
Qed.

Lemma grow_length (s s' : Snake) :
  grow s = Some s' -> List.length (body s') = S (List.length (body s)).
Proof.
  unfold grow. destruct (get_head_point s); [|discriminate].
  destruct (transform _ _ _); [|discriminate].
  intros E; inversion E; reflexivity.
Qed.

Lemma place_food_snake (g g' : Game) draws :
  place_food g draws = Some g' -> snake g' = snake g.
Proof.
  unfold place_food. destruct (place_food_loop _ _ _ _); [|discriminate].
  intros E; inversion E; reflexivity.
Qed.

Lemma direction_eqb_eq (a b : Direction) : direction_eqb a b = true <-> a = b.
Proof. destruct a, b; simpl; split; congruence. Qed.

Lemma opposite_neq (d : Direction) : opposite d <> d.
Proof. destruct d; discriminate. Qed.

Lemma turn_guard_true (D t : Direction) :
  t <> D /\ t <> opposite D ->
  negb (direction_eqb D t) && negb (direction_eqb (opposite D) t) = true.
Proof.
  intros [H1 H2].
  destruct (direction_eqb D t) eqn:E1; [apply direction_eqb_eq in E1; congruence|].
  destruct (direction_eqb (opposite D) t) eqn:E2;
    [apply direction_eqb_eq in E2; congruence|reflexivity].
Qed.

Lemma turn_guard_false (D t : Direction) :
  t = D \/ t = opposite D ->
  negb (direction_eqb D t) && negb (direction_eqb (opposite D) t) = false.
Proof.
  intros [-> | ->]; destruct D; reflexivity.
Qed.

(** ** The claims *)

(** C4: within one tick with baseline heading [D] (the heading at tick
    start), a [Turn t] sets the heading to [t] exactly when [t] is neither
    [D] nor [opposite D] and is otherwise ignored; every later command of the
    tick is judged against the same [D]; so whatever the commands, the
    heading at the end of the window is never [opposite D]. *)
Theorem poll_commands_baseline (D : Direction) :
  (forall s t, t <> D /\ t <> opposite D ->
     snd (poll_commands D s [Turn t]) = set_direction s t)
  /\ (forall s t, t = D \/ t = opposite D ->
     snd (poll_commands D s [Turn t]) = s)
  /\ (forall s t rest,
     poll_commands D s (Turn t :: rest)
     = poll_commands D (snd (poll_commands D s [Turn t])) rest)
  /\ (forall s cmds, direction s = D ->
     direction (snd (poll_commands D s cmds)) <> opposite D).
Proof.
  split; [|split; [|split]].
  - intros s t H. simpl. rewrite turn_guard_true by exact H. reflexivity.
  - intros s t H. simpl. rewrite turn_guard_false by exact H. reflexivity.
  - intros s t rest. reflexivity.
  - intros s cmds Hs.
    assert (Inv : direction s <> opposite D)
      by (rewrite Hs; intros E; symmetry in E; exact (opposite_neq D E)).
    clear Hs. revert s Inv.
    induction cmds as [|[|t] rest IH]; intros s Inv; simpl; try exact Inv.
    apply IH.
    destruct (direction_eqb D t) eqn:E1; simpl; [exact Inv|].
    destruct (direction_eqb (opposite D) t) eqn:E2; simpl; [exact Inv|].
    intros E; rewrite E in E2; destruct D; discriminate.
Qed.

(** Two quick presses on a snake heading [Up]: [Left], then [Down]; the
    second is judged against [Up] and ignored. *)
Lemma poll_commands_baseline_witness :
  snd (poll_commands Up (mkSnake [] Up) [Turn Left])
    = set_direction (mkSnake [] Up) Left
  /\ direction (snd (poll_commands Up (mkSnake [] Up) [Turn Left; Turn Down]))
     <> opposite Up.
Proof.
  split.
  - apply (proj1 (poll_commands_baseline Up)). split; discriminate.
  - apply (proj2 (proj2 (proj2 (poll_commands_baseline Up)))). reflexivity.
Defined.

(** C5: on a snake with at least two segments whose next head [nh] (the head
    moved one cell along the heading) exists, [has_bitten_itself] returns,
    and returns [true] exactly when [nh] is the segment at some index [i]
    with [0 < i < len - 1], i.e. neither the head nor the tail. *)
Theorem has_bitten_itself_spec (g : Game) (hp nh : Point)
  (Hhead : get_head_point (snake g) = Some hp)
  (Hnext : transform hp (direction (snake g)) 1 = Some nh)
  (Hlen : (2 <= List.length (body (snake g)))%nat) :
  exists b, has_bitten_itself g = Some b /\
    (b = true <-> exists i, (0 < i < List.length (body (snake g)) - 1)%nat
                         /\ nth_error (body (snake g)) i = Some nh).
Proof.
  unfold has_bitten_itself. rewrite Hhead, Hnext.
  destruct (body (snake g)) as [|a rest] eqn:Eb; [simpl in Hlen; lia|].
  destruct rest as [|c rest']; [simpl in Hlen; lia|].
  set (l := a :: c :: rest').
  simpl List.length. simpl Nat.eqb. cbv iota beta.
  replace (S (S (List.length rest')) - 1)%nat with (Nat.pred (List.length l))
    by (subst l; reflexivity).
  rewrite vec_remove_last by (subst l; discriminate).
  subst l. change (removelast (a :: c :: rest')) with (a :: removelast (c :: rest')).
  set (r := removelast (c :: rest')).
  simpl vec_remove. cbv iota beta.
  eexists; split; [reflexivity|].
  rewrite existsb_point_In, In_iff_nth_error.
  split.
  - intros [j Hj].
    assert (Hjl : (j < List.length (c :: rest') - 1)%nat).
    { assert (Hs : nth_error r j <> None) by congruence.
      apply nth_error_Some in Hs. subst r.
      rewrite length_removelast in Hs by discriminate. exact Hs. }
    exists (S j). split; [simpl in *; lia|].
    simpl nth_error. rewrite <- nth_error_removelast by exact Hjl. exact Hj.
  - intros [i [Hi Hn]]. destruct i as [|j]; [lia|].
    exists j. subst r. rewrite nth_error_removelast by (simpl in *; lia). exact Hn.
Qed.

Lemma has_bitten_itself_spec_witness :
  exists b, has_bitten_itself food_ahead_20x20 = Some b /\
    (b = true <-> exists i,
       (0 < i < List.length (body (snake food_ahead_20x20)) - 1)%nat
       /\ nth_error (body (snake food_ahead_20x20)) i = Some (mkPoint 11 10)).
Proof.
  apply (has_bitten_itself_spec food_ahead_20x20 (mkPoint 10 10) (mkPoint 11 10));
    vm_compute; [reflexivity | reflexivity | lia].
Defined.

(** C6: on a board of positive width and height, [has_collided_with_wall]
    returns, and returns [true] exactly when the head sits on the edge in the
    direction of travel: [y = 0] heading [Up], [x = width - 1] heading
    [Right], [y = height - 1] heading [Down], [x = 0] heading [Left]. *)
Theorem has_collided_with_wall_spec (g : Game) (hp : Point)
  (Hw : 1 <= width g) (Hh : 1 <= height g)
  (Hhead : get_head_point (snake g) = Some hp) :
  has_collided_with_wall g =
    Some (match direction (snake g) with
          | Up => y hp =? 0
          | Right => x hp =? width g - 1
          | Down => y hp =? height g - 1
          | Left => x hp =? 0
          end).
Proof.
  unfold has_collided_with_wall, sub16. rewrite Hhead.
  apply N.leb_le in Hw. apply N.leb_le in Hh.
  destruct (direction (snake g)); [reflexivity| rewrite Hw | rewrite Hh |];
    reflexivity.
Qed.

(** The end-to-end scenario: heading [Right] with the head on (19, 10) of a
    20-wide board. *)
Lemma has_collided_with_wall_spec_witness :
  has_collided_with_wall
    (mkGame 20 20 None (mkSnake [mkPoint 19 10; mkPoint 18 10] Right) 0 0)
  = Some true.
Proof.
  rewrite (has_collided_with_wall_spec _ (mkPoint 19 10));
    [reflexivity | vm_compute; discriminate | vm_compute; discriminate
    | reflexivity].
Defined.

(** C7: for a speed level [s <= MAX_SPEED], [calculate_interval] returns
    [MIN_INTERVAL + ((MAX_INTERVAL - MIN_INTERVAL) / MAX_SPEED) * (MAX_SPEED - s)]
    milliseconds, within [32, 128]; 128 at speed 0 and 32 at speed 8. *)
Theorem calculate_interval_spec (g : Game) (Hs : speed g <= MAX_SPEED) :
  calculate_interval g =
    Some (MIN_INTERVAL
          + ((MAX_INTERVAL - MIN_INTERVAL) / MAX_SPEED) * (MAX_SPEED - speed g))
  /\ 32 <= MIN_INTERVAL
          + ((MAX_INTERVAL - MIN_INTERVAL) / MAX_SPEED) * (MAX_SPEED - speed g)
        <= 128
  /\ (speed g = 0 -> calculate_interval g = Some 128)
  /\ (speed g = 8 -> calculate_interval g = Some 32).
Proof.
  assert (E : calculate_interval g = Some (32 + 12 * (8 - speed g))).
  { unfold calculate_interval, sub16, mul16, add16, MAX_SPEED, MAX_INTERVAL,
      MIN_INTERVAL, U16_MAX in *.
    change ((128 - 32) / 8) with 12.
    replace (speed g <=? 8) with true by (symmetry; apply N.leb_le; exact Hs).
    replace (12 * (8 - speed g) <=? 65535) with true
      by (symmetry; apply N.leb_le; lia).
    replace (32 + 12 * (8 - speed g) <=? 65535) with true
      by (symmetry; apply N.leb_le; lia).
    reflexivity. }
  unfold MAX_SPEED, MAX_INTERVAL, MIN_INTERVAL in *.
  change ((128 - 32) / 8) with 12.
  split; [exact E|]. split; [lia|].
  split; intros Hv; rewrite E, Hv; reflexivity.
Qed.

Lemma calculate_interval_spec_witness :
  calculate_interval (mkGame 20 20 None (mkSnake [] Up) 3 0) = Some 92.
Proof.
  rewrite (proj1 (calculate_interval_spec (mkGame 20 20 None (mkSnake [] Up) 3 0)
                    ltac:(vm_compute; discriminate))).
  reflexivity.
Defined.

(** C8: when [place_food] returns, the food is a point of
    [0, width) x [0, height) that the snake does not contain, so it is none
    of the snake's segments. *)
Theorem place_food_spec (g g' : Game) (draws : list (N * N))
  (H : place_food g draws = Some g') :
  exists p, food g' = Some p /\ x p < width g /\ y p < height g
    /\ contains_point (snake g') p = false
    /\ (forall q, In q (body (snake g')) -> q <> p).
Proof.
  assert (Hs : snake g' = snake g) by exact (place_food_snake g g' draws H).
  unfold place_food in H.
  destruct (place_food_loop (width g) (height g) (snake g) draws) as [p|] eqn:Ep;
    [|discriminate].
  inversion H; subst g'; clear H. exists p. simpl. split; [reflexivity|].
  induction draws as [|[rx ry] rest IH]; simpl in Ep; [discriminate|].
  unfold gen_range in Ep.
  destruct (width g <=? 0) eqn:Ew; [discriminate|].
  destruct (height g <=? 0) eqn:Eh; [discriminate|].
  destruct (contains_point (snake g) _) eqn:Ec; simpl in Ep; [apply IH; exact Ep|].
  inversion Ep; subst p; clear Ep IH. simpl.
  apply N.leb_gt in Ew, Eh. rewrite !N.sub_0_r, !N.add_0_l in *.
  split; [apply N.mod_lt; lia|]. split; [apply N.mod_lt; lia|].
  split; [exact Ec|].
  intros q Hq Eq; subst q.
  unfold contains_point in Ec.
  rewrite (proj2 (existsb_point_In _ _) Hq) in Ec. discriminate.
Qed.

Lemma place_food_spec_witness :
  exists p, food (set_food food_ahead_20x20 (Some (mkPoint 7 3))) = Some p
    /\ x p < width food_ahead_20x20 /\ y p < height food_ahead_20x20
    /\ contains_point (snake (set_food food_ahead_20x20 (Some (mkPoint 7 3)))) p
       = false
    /\ (forall q, In q (body (snake (set_food food_ahead_20x20
                                       (Some (mkPoint 7 3))))) -> q <> p).
Proof.
  apply (place_food_spec food_ahead_20x20 _ [(10, 10); (7, 3)]).
  reflexivity.
Defined.

(** C9: [slither] keeps the body length, puts the new head at
    [old_head.transform(old_direction, 1)] and shifts the body forward with
    the tail dropped; a snake created at (10, 10) with length 3 heading
    [Right] is [(10,10), (9,10), (8,10)], and one [slither] later
    [(11,10), (10,10), (9,10)]. *)
Theorem slither_spec :
  (forall (s : Snake) (hp nh : Point),
     get_head_point s = Some hp ->
     transform hp (direction s) 1 = Some nh ->
     exists s', slither s = Some s'
       /\ List.length (body s') = List.length (body s)
       /\ get_head_point s' = Some nh
       /\ body s' = nh :: removelast (body s)
       /\ direction s' = direction s)
  /\ snake_new (mkPoint 10 10) 3 Right
     = Some (mkSnake [mkPoint 10 10; mkPoint 9 10; mkPoint 8 10] Right)
  /\ slither (mkSnake [mkPoint 10 10; mkPoint 9 10; mkPoint 8 10] Right)
     = Some (mkSnake [mkPoint 11 10; mkPoint 10 10; mkPoint 9 10] Right).
Proof.
  split; [|split; reflexivity].
  intros s hp nh Hh Hn.
  assert (Hl := slither_length s).
  unfold slither in *. rewrite Hh, Hn in *.
  unfold get_head_point in Hh.
  destruct (body s) as [|h t] eqn:Eb; [discriminate|].
  simpl in Hh; inversion Hh; subst h.
  pose proof (vec_remove_last (nh :: hp :: t) ltac:(discriminate)) as R.
  simpl in R |- *. rewrite R.
  eexists; split; [reflexivity|].
  specialize (Hl _ ltac:(simpl; rewrite R; reflexivity)).
  split; [exact Hl|]. simpl. repeat split; reflexivity.
Qed.

Lemma slither_spec_witness :
  exists s', slither (mkSnake [mkPoint 3 2; mkPoint 3 3] Up) = Some s'
    /\ List.length (body s') = List.length [mkPoint 3 2; mkPoint 3 3]
    /\ get_head_point s' = Some (mkPoint 3 1)
    /\ body s' = mkPoint 3 1 :: removelast [mkPoint 3 2; mkPoint 3 3]
    /\ direction s' = Up.
Proof.
  exact (proj1 slither_spec (mkSnake [mkPoint 3 2; mkPoint 3 3] Up)
           (mkPoint 3 2) (mkPoint 3 1) eq_refl eq_refl).
Defined.

(** ** One pass of the loop *)

Lemma run_tick_cases (g : Game) cmds draws (t : Tick) :
  run_tick g cmds draws = Some t ->
  let g1 := set_snake g (snd (poll_commands (direction (snake g)) (snake g) cmds)) in
  (rendered t = false /\ done t = true /\ next t = g1)
  \/ (rendered t = true
      /\ done t = fst (poll_commands (direction (snake g)) (snake g) cmds)
      /\ advance g1 draws = Some (next t)).
Proof.
  unfold run_tick.
  destruct (calculate_interval g); [|discriminate].
  destruct (poll_commands (direction (snake g)) (snake g) cmds) as [quit s].
  simpl.
  destruct (has_collided_with_wall (set_snake g s)) as [[|]|]; [| |discriminate].
  - intros E; inversion E; subst; left; auto.
  - destruct (has_bitten_itself (set_snake g s)) as [[|]|]; [| |discriminate].
    + intros E; inversion E; subst; left; auto.
    + destruct (advance (set_snake g s) draws) as [g2|]; [|discriminate].
      intros E; inversion E; subst; right; auto.
Qed.

Lemma advance_food (g g' : Game) draws (fp : Point) (s2 : Snake) :
  advance g draws = Some g' ->
  food g = Some fp ->
  slither (snake g) = Some s2 ->
  get_head_point s2 = Some fp ->
  List.length (body (snake g')) = S (List.length (body (snake g)))
  /\ score g' = score g + 1
  /\ exists hp2, get_head_point (snake g') = Some hp2
                 /\ transform fp (direction (snake g)) 1 = Some hp2.
Proof.
  intros H Hf Hs Hh.
  assert (Hl := slither_length _ _ Hs).
  assert (Hd : direction s2 = direction (snake g)).
  { revert Hs; unfold slither.
    destruct (get_head_point (snake g)); [|discriminate].
    destruct (transform _ _ _); [|discriminate].
    destruct (vec_remove _ _); [|discriminate].
    intros E; inversion E; reflexivity. }
  unfold advance in H. rewrite Hs in H. simpl in H. rewrite Hf, Hh in H.
  rewrite (proj2 (point_eqb_eq fp fp) eq_refl) in H.
  destruct (grow s2) as [s3|] eqn:Eg; [|discriminate].
  destruct (place_food (set_snake (set_snake g s2) s3) draws) as [g2|] eqn:Ep;
    [|discriminate].
  assert (Hsn := place_food_snake _ _ _ Ep). simpl in Hsn.
  assert (Hsc : score g2 = score g).
  { revert Ep; unfold place_food. destruct (place_food_loop _ _ _ _); [|discriminate].
    intros E; inversion E; reflexivity. }
  unfold add16 in H.
  destruct (score g2 + 1 <=? U16_MAX); [|discriminate].
  assert (Hfin : snake g' = s3 /\ score g' = score g + 1).
  { destruct (mul16 _ _); [|discriminate]. simpl in H.
    destruct (rem16 _ _) as [r|]; [|discriminate].
    destruct (r =? 0).
    - destruct (speed g2 + 1 <=? U16_MAX); [|discriminate].
      inversion H; subst; simpl; split; congruence.
    - inversion H; subst; simpl; split; congruence. }
  destruct Hfin as [-> ->].
  split; [rewrite (grow_length _ _ Eg); congruence|].
  split; [reflexivity|].
  revert Eg; unfold grow. rewrite Hh, Hd.
  destruct (transform fp (direction (snake g)) 1) as [hp2|]; [|discriminate].
  intros E; inversion E; subst. exists hp2; split; reflexivity.
Qed.

Lemma lay_body_length start back (i : nat) (l : list Point) :
  lay_body start back i = Some l -> List.length l = i.
Proof.
  revert l; induction i as [|i IH]; intros l; simpl.
  - intros E; inversion E; reflexivity.
  - destruct (lay_body start back i) as [rest|] eqn:Er; [|discriminate].
    destruct (transform _ _ _); [|discriminate].
    intros E; inversion E; subst. rewrite length_app, (IH rest eq_refl).
    simpl; lia.
Qed.

Lemma game_new_length (w h r : N) (g : Game) :
  game_new w h r = Some g -> List.length (body (snake g)) = 3%nat.
Proof.
  unfold game_new, snake_new.
  destruct (gen_range 0 4 r); [|discriminate].
  destruct (lay_body _ _ _) as [b|] eqn:Eb; [|discriminate].
  intros E; inversion E; subst; simpl.
  exact (lay_body_length _ _ _ _ Eb).
Qed.

Lemma advance_length (g g' : Game) draws :
  advance g draws = Some g' ->
  (List.length (body (snake g)) <= List.length (body (snake g')))%nat.
Proof.
  unfold advance.
  destruct (slither (snake g)) as [s1|] eqn:Es; [|discriminate].
  assert (Hl := slither_length _ _ Es). simpl.
  destruct (food g) as [fp|].
  - destruct (get_head_point s1); [|discriminate].
    destruct (point_eqb _ fp).
    + destruct (grow s1) as [s2|] eqn:Eg; [|discriminate].
      destruct (place_food (set_snake (set_snake g s1) s2) draws) as [g2|] eqn:Ep;
        [|discriminate].
      assert (Hsn := place_food_snake _ _ _ Ep). simpl in Hsn.
      assert (Hg := grow_length _ _ Eg).
      destruct (add16 _ _); [|discriminate].
      destruct (mul16 _ _); [|discriminate]. simpl.
      destruct (rem16 _ _) as [r|]; [|discriminate].
      destruct (r =? 0).
      * destruct (add16 _ _); [|discriminate].
        intros E; inversion E; subst; simpl; lia.
      * intros E; inversion E; subst; simpl; lia.
    + intros E; inversion E; subst; simpl; lia.
  - intros E; inversion E; subst; simpl; lia.
Qed.

Lemma run_tick_length (g : Game) cmds draws (t : Tick) :
  run_tick g cmds draws = Some t ->
  (List.length (body (snake g)) <= List.length (body (snake (next t))))%nat.
Proof.
  intros H. destruct (run_tick_cases g cmds draws t H) as [[_ [_ E]] | [_ [_ E]]].
  - rewrite E. simpl. rewrite poll_commands_body. lia.
  - apply advance_length in E. simpl in E. rewrite poll_commands_body in E. exact E.
Qed.

Lemma reachable_length_3 (g : Game) (b : bool) :
  reachable g b -> (3 <= List.length (body (snake g)))%nat.
Proof.
  induction 1 as [w h r draws g0 g1 Hn Hp | g cmds draws t _ IH Ht].
  - rewrite (place_food_snake _ _ _ Hp), (game_new_length _ _ _ _ Hn). lia.
  - apply run_tick_length in Ht. lia.
Qed.

Lemma run_ticks_reachable (g : Game) inputs (g' : Game) (b : bool) :
  reachable g true -> run_ticks g inputs = Some (g', b) -> reachable g' b.
Proof.
  revert g; induction inputs as [|[cmds draws] rest IH]; intros g Hg; simpl.
  - intros E; inversion E; subst; exact Hg.
  - destruct (run_tick g cmds draws) as [t|] eqn:Et; [|discriminate].
    assert (Hr := reach_tick g cmds draws t Hg Et).
    destruct (done t) eqn:Ed.
    + destruct rest; [|discriminate].
      intros E; inversion E; subst. exact Hr.
    + apply IH. exact Hr.
Qed.

Lemma run_game_reachable (w h r : N) draws0 inputs (g : Game) (b : bool) :
  run_game w h r draws0 inputs = Some (g, b) -> reachable g b.
Proof.
  unfold run_game.
  destruct (game_new w h r) as [g0|] eqn:E0; [|discriminate].
  destruct (place_food g0 draws0) as [g1|] eqn:E1; [|discriminate].
  apply run_ticks_reachable. exact (reach_start w h r draws0 g0 g1 E0 E1).
Qed.

(** C1: on a food tick the head should advance one cell, [grow()] taking
    the place of [slither()].  [Game::run] calls [slither()] and then
    [grow()], so in [main]'s 20x20 game (initial draw [Right], first food
    drawn on (19, 10)), after eight plain ticks the head is on (18, 10) with
    the food on (19, 10); the next tick ends with the head two cells on, on
    (20, 10), outside the board, and the loop goes on: the tick after that
    moves the head to (21, 10) without a wall collision. *)
Theorem food_tick_head_leaves_board :
  exists g t t2,
    run_game 20 20 1 [(19, 10)] (repeat ([], []) 8) = Some (g, true)
    /\ food g = Some (mkPoint 19 10)
    /\ get_head_point (snake g) = Some (mkPoint 18 10)
    /\ direction (snake g) = Right
    /\ run_tick g [] [(0, 0)] = Some t
    /\ done t = false
    /\ List.length (body (snake (next t))) = S (List.length (body (snake g)))
    /\ score (next t) = score g + 1
    /\ get_head_point (snake (next t)) = Some (mkPoint 20 10)
    /\ width (next t) = 20
    /\ run_tick (next t) [] [] = Some t2
    /\ done t2 = false
    /\ get_head_point (snake (next t2)) = Some (mkPoint 21 10).
Proof.
  do 3 eexists.
  split; [vm_compute; reflexivity|].
  split; [reflexivity|]. split; [reflexivity|]. split; [reflexivity|].
  split; [vm_compute; reflexivity|].
  split; [reflexivity|]. split; [reflexivity|]. split; [reflexivity|].
  split; [reflexivity|]. split; [reflexivity|].
  split; [vm_compute; reflexivity|].
  split; reflexivity.
Qed.

(** C2 (code): the speed is raised whenever the new score is a multiple of
    [(width * height) / MAX_SPEED], with no cap.  On a 3x5 board (threshold
    15 / 8 = 1), a game of eleven ticks eating nine foods reaches speed 9,
    above [MAX_SPEED], where [calculate_interval] panics on
    [MAX_SPEED - speed]. *)
Theorem speed_exceeds_max_speed :
  exists g, reachable g true /\ MAX_SPEED < speed g /\ score g = 9
    /\ run_game 3 5 0 [(0, 1)] trace_3x5 = Some (g, true)
    /\ calculate_interval g = None.
Proof.
  destruct (run_game 3 5 0 [(0, 1)] trace_3x5) as [[g b]|] eqn:E;
    [|vm_compute in E; discriminate].
  assert (Hr := run_game_reachable _ _ _ _ _ _ _ E).
  assert (E' := E). vm_compute in E'. injection E' as Eg Ebool. subst b.
  exists g. split; [exact Hr|].
  rewrite <- Eg.
  split; [vm_compute; reflexivity|]. split; [reflexivity|].
  split; [reflexivity|]. vm_compute. reflexivity.
Qed.

(** C3 (code): a [Quit] read in the input window only leaves the inner
    polling loop; the rest of the pass still runs.  From the start of a
    20x20 game, a tick whose only command is [Quit] ends the loop but still
    slithers the snake and renders. *)
Theorem quit_tick_still_advances :
  exists g t, start_20x20 = Some g /\ reachable g true
    /\ run_tick g [Quit] [] = Some t
    /\ done t = true /\ rendered t = true
    /\ body (snake g) = [mkPoint 10 10; mkPoint 9 10; mkPoint 8 10]
    /\ body (snake (next t)) = [mkPoint 11 10; mkPoint 10 10; mkPoint 9 10].
Proof.
  eexists; eexists; split; [vm_compute; reflexivity|].
  split; [eapply (reach_start 20 20 1 [(0, 0)]); vm_compute; reflexivity|].
  split; [vm_compute; reflexivity|].
  repeat split; reflexivity.
Qed.

(** C10: in every state [Game::run] reaches, the body has at least two
    segments, so both [remove] calls of [has_bitten_itself] (the last
    element, then element 0) are in bounds. *)
Theorem reachable_body_removals (g : Game) (b : bool) (H : reachable g b) :
  (2 <= List.length (body (snake g)))%nat
  /\ exists l1 l2,
       vec_remove (body (snake g)) (List.length (body (snake g)) - 1) = Some l1
       /\ vec_remove l1 0 = Some l2.
Proof.
  assert (H3 := reachable_length_3 g b H).
  split; [lia|].
  destruct (body (snake g)) as [|a rest] eqn:Eb; [simpl in H3; lia|].
  pose proof (vec_remove_last (a :: rest) ltac:(discriminate)) as R.
  replace (List.length (a :: rest) - 1)%nat with (Nat.pred (List.length (a :: rest)))
    by (simpl; lia).
  rewrite R. exists (removelast (a :: rest)).
  destruct rest as [|c rest']; [simpl in H3; lia|].
  exists (removelast (c :: rest')). split; reflexivity.
Qed.

Lemma reachable_body_removals_witness :
  exists g, start_20x20 = Some g /\ (2 <= List.length (body (snake g)))%nat.
Proof.
  exists (mkGame 20 20 (Some (mkPoint 0 0))
            (mkSnake [mkPoint 10 10; mkPoint 9 10; mkPoint 8 10] Right) 0 0).
  split; [vm_compute; reflexivity|].
  apply (reachable_body_removals _ true).
  apply (reach_start 20 20 1 [(0, 0)]
           (mkGame 20 20 None
              (mkSnake [mkPoint 10 10; mkPoint 9 10; mkPoint 8 10] Right) 0 0));
    vm_compute; reflexivity.
Defined.

(** ** Further properties of the code *)

(** [Direction::opposite] is an involution without fixed point. *)
Theorem opposite_involutive (d : Direction) :
  opposite (opposite d) = d /\ opposite d <> d.
Proof. destruct d; split; solve [reflexivity | discriminate]. Qed.

Ltac key_cases :=
  repeat (match goal with
          | H : context [?a =? ?b] |- _ =>
              let E := fresh "E" in
              destruct (a =? b) eqn:E;
              [apply N.eqb_eq in E; subst | clear E]
          end; simpl in *).

(** [get_command] returns [Quit] for a key event exactly when the key is
    Esc, [q] or [Q] (with any modifiers), or [c] or [C] with the modifiers
    exactly [CONTROL]. *)
Theorem get_command_quit (k : KeyEvent) :
  get_command (PollReady (Some (EvKey k))) = Some Quit <->
  code k = KEsc
  \/ exists c, code k = KChar c
       /\ (c = chr "q" \/ c = chr "Q"
           \/ ((c = chr "c" \/ c = chr "C") /\ modifiers k = CONTROL)).
Proof.
  destruct k as [cd m]; unfold get_command, wait_for_key_event, chr, CONTROL; simpl.
  destruct cd; simpl; split; intros H;
    try discriminate;
    try (destruct H as [H | [c [H _]]]; discriminate);
    try (left; reflexivity); try reflexivity.
  - right; exists c; split; [reflexivity|].
    key_cases; simpl in H; try discriminate; subst; tauto.
  - destruct H as [H | [c' [H Hc]]]; [discriminate|]. inversion H; subst c'.
    destruct Hc as [-> | [-> | [[-> | ->] ->]]]; reflexivity.
Qed.

(** [get_command] returns [Turn d] for a key event exactly when the key is
    the arrow of [d] or its WASD letter in either case, with any modifiers. *)
Theorem get_command_turn (k : KeyEvent) (d : Direction) :
  get_command (PollReady (Some (EvKey k))) = Some (Turn d) <->
  match d with
  | Up => code k = KUp \/ code k = KChar (chr "w") \/ code k = KChar (chr "W")
  | Right => code k = KRight \/ code k = KChar (chr "d") \/ code k = KChar (chr "D")
  | Down => code k = KDown \/ code k = KChar (chr "s") \/ code k = KChar (chr "S")
  | Left => code k = KLeft \/ code k = KChar (chr "a") \/ code k = KChar (chr "A")
  end.
Proof.
  destruct k as [cd m]; unfold get_command, wait_for_key_event, chr; simpl.
  destruct d; split; intros H.
  all: try (destruct H as [H | [H | H]]; rewrite H; reflexivity).
  all: destruct cd; simpl in *; try discriminate; key_cases; try discriminate; auto.
Qed.

(** [get_command] gives no command when [poll] or [read] fails, when the
    poll times out, on mouse and resize events, and on [c] or [C] unless the
    modifiers are exactly [CONTROL] (so Ctrl+Shift+C does not quit). *)
Theorem get_command_none :
  get_command PollError = None
  /\ get_command PollTimeout = None
  /\ get_command (PollReady None) = None
  /\ get_command (PollReady (Some EvMouse)) = None
  /\ (forall cols rows, get_command (PollReady (Some (EvResize cols rows))) = None)
  /\ (forall k c, code k = KChar c -> c = chr "c" \/ c = chr "C" ->
        modifiers k <> CONTROL -> get_command (PollReady (Some (EvKey k))) = None).
Proof.
  repeat split.
  intros [cd m] c Hc Hcc Hm; simpl in Hc, Hm; subst cd.
  unfold get_command, wait_for_key_event, chr in *; simpl in *.
  apply N.eqb_neq in Hm. rewrite Hm.
  destruct Hcc as [-> | ->]; reflexivity.
Qed.

Lemma get_command_none_witness :
  get_command (PollReady (Some (EvKey (mkKeyEvent (KChar (chr "C")) (CONTROL + SHIFT)))))
  = None.
Proof.
  apply (proj2 (proj2 (proj2 (proj2 (proj2 get_command_none))))
           _ (chr "C")); [reflexivity | right; reflexivity | vm_compute; discriminate].
Defined.

Lemma poll_commands_no_reverse (D : Direction) (s : Snake) (cmds : list Command) :
  direction s <> opposite D ->
  direction (snd (poll_commands D s cmds)) <> opposite D.
Proof.
  revert s; induction cmds as [|[|t] rest IH]; intros s Inv; simpl; try exact Inv.
  apply IH.
  destruct (direction_eqb D t) eqn:E1; simpl; [exact Inv|].
  destruct (direction_eqb (opposite D) t) eqn:E2; simpl; [exact Inv|].
  intros E; rewrite E in E2; destruct D; discriminate.
Qed.

Lemma slither_direction (s s' : Snake) :
  slither s = Some s' -> direction s' = direction s.
Proof.
  unfold slither. destruct (get_head_point s); [|discriminate].
  destruct (transform _ _ _); [|discriminate].
  destruct (vec_remove _ _); [|discriminate].
  intros E; inversion E; reflexivity.
Qed.

Lemma grow_direction (s s' : Snake) :
  grow s = Some s' -> direction s' = direction s.
Proof.
  unfold grow. destruct (get_head_point s); [|discriminate].
  destruct (transform _ _ _); [|discriminate].
  intros E; inversion E; reflexivity.
Qed.

Lemma place_food_fields (g g' : Game) draws :
  place_food g draws = Some g' ->
  width g' = width g /\ height g' = height g /\ snake g' = snake g
  /\ speed g' = speed g /\ score g' = score g.
Proof.
  unfold place_food. destruct (place_food_loop _ _ _ _); [|discriminate].
  intros E; inversion E; repeat split.
Qed.

(** Everything [advance] can do to a game, but the food. *)
Lemma advance_cases (g g' : Game) draws :
  advance g draws = Some g' ->
  width g' = width g /\ height g' = height g
  /\ exists s1, slither (snake g) = Some s1
  /\ ((snake g' = s1 /\ food g' = food g /\ speed g' = speed g /\ score g' = score g
       /\ forall fp, food g = Some fp -> get_head_point s1 <> Some fp)
      \/ (exists fp s2 g2, food g = Some fp /\ get_head_point s1 = Some fp
          /\ grow s1 = Some s2
          /\ place_food (set_snake (set_snake g s1) s2) draws = Some g2
          /\ snake g' = s2 /\ food g' = food g2 /\ score g' = score g + 1
          /\ (speed g' = speed g \/ speed g' = speed g + 1))).
Proof.
  unfold advance.
  destruct (slither (snake g)) as [s1|] eqn:Es; [|discriminate]. simpl.
  destruct (food g) as [fp|] eqn:Ef.
  - destruct (get_head_point s1) as [hp|] eqn:Eh; [|discriminate].
    destruct (point_eqb hp fp) eqn:Eq.
    + apply point_eqb_eq in Eq; subst hp.
      destruct (grow s1) as [s2|] eqn:Eg; [|discriminate].
      destruct (place_food (set_snake (set_snake g s1) s2) draws) as [g2|] eqn:Ep;
        [|discriminate].
      destruct (place_food_fields _ _ _ Ep) as [Hw [Hh [Hs [Hv Hc]]]].
      simpl in Hw, Hh, Hs, Hv, Hc.
      destruct (add16 (score g2) 1) as [sc|] eqn:Ea; [|discriminate].
      unfold add16 in Ea. destruct (_ <=? U16_MAX); inversion Ea; subst sc.
      destruct (mul16 _ _); [|discriminate]. simpl.
      destruct (rem16 _ _) as [r|]; [|discriminate].
      intros H.
      assert (Hcore : snake g' = s2 /\ food g' = food g2 /\ score g' = score g + 1
                      /\ width g' = width g /\ height g' = height g
                      /\ (speed g' = speed g \/ speed g' = speed g + 1)).
      { destruct (r =? 0).
        - unfold add16 in H. destruct (_ <=? U16_MAX); [|discriminate].
          inversion H; subst; simpl; repeat split; try congruence;
            right; congruence.
        - inversion H; subst; simpl; repeat split; try congruence;
            left; congruence. }
      destruct Hcore as [H1 [H2 [H3 [H4 [H5 H6]]]]].
      split; [exact H4|]. split; [exact H5|].
      exists s1; split; [reflexivity|]. right.
      exists fp, s2, g2; repeat split; assumption.
    + intros E; inversion E; subst; simpl.
      split; [reflexivity|]. split; [reflexivity|].
      exists s1; split; [reflexivity|]. left; repeat split; auto.
      intros fp' Ef' Eh'. inversion Ef'; subst fp'.
      rewrite Eh in Eh'; inversion Eh'; subst hp.
      rewrite (proj2 (point_eqb_eq fp fp) eq_refl) in Eq; discriminate.
  - intros E; inversion E; subst; simpl.
    split; [reflexivity|]. split; [reflexivity|].
    exists s1; split; [reflexivity|]. left; repeat split; auto.
    intros fp' Ef'; discriminate.
Qed.

Lemma advance_direction (g g' : Game) draws :
  advance g draws = Some g' -> direction (snake g') = direction (snake g).
Proof.
  intros H. destruct (advance_cases _ _ _ H) as [_ [_ [s1 [Es Hc]]]].
  rewrite <- (slither_direction _ _ Es).
  destruct Hc as [[-> _] | [fp [s2 [g2 [_ [_ [Eg [_ [-> _]]]]]]]]];
    [reflexivity | exact (grow_direction _ _ Eg)].
Qed.

(** After one pass of the loop the heading is never the reverse of the
    heading the pass started with, whatever keys were pressed. *)
Theorem tick_heading_not_reversed (g : Game) cmds draws (t : Tick)
  (H : run_tick g cmds draws = Some t) :
  direction (snake (next t)) <> opposite (direction (snake g)).
Proof.
  assert (Hp : direction (snd (poll_commands (direction (snake g)) (snake g) cmds))
               <> opposite (direction (snake g))).
  { apply poll_commands_no_reverse. intros E.
    exact (opposite_neq _ (eq_sym E)). }
  destruct (run_tick_cases g cmds draws t H) as [[_ [_ E]] | [_ [_ E]]].
  - rewrite E. exact Hp.
  - rewrite (advance_direction _ _ _ E). exact Hp.
Qed.

Lemma tick_heading_not_reversed_witness :
  exists t, run_tick food_ahead_20x20 [Turn Left; Turn Up] [(0, 0)] = Some t
    /\ direction (snake (next t)) <> opposite (direction (snake food_ahead_20x20)).
Proof.
  destruct (run_tick food_ahead_20x20 [Turn Left; Turn Up] [(0, 0)]) as [t|] eqn:E;
    [|vm_compute in E; discriminate].
  exists t; split; [reflexivity|].
  exact (tick_heading_not_reversed _ _ _ t E).
Defined.

(** One pass of the loop keeps the board size; the score either stays (and
    then so does the speed) or goes up by one, with the speed then up by at
    most one. *)
Theorem tick_counters (g : Game) cmds draws (t : Tick)
  (H : run_tick g cmds draws = Some t) :
  width (next t) = width g /\ height (next t) = height g
  /\ ((score (next t) = score g /\ speed (next t) = speed g)
      \/ (score (next t) = score g + 1
          /\ (speed (next t) = speed g \/ speed (next t) = speed g + 1))).
Proof.
  destruct (run_tick_cases g cmds draws t H) as [[_ [_ E]] | [_ [_ E]]].
  - rewrite E; simpl. auto.
  - destruct (advance_cases _ _ _ E) as [Hw [Hh [s1 [_ Hc]]]].
    simpl in Hw, Hh. split; [exact Hw|]. split; [exact Hh|].
    destruct Hc as [[_ [_ [Hv [Hs _]]]] | [fp [s2 [g2 [_ [_ [_ [_ [_ [_ [Hs Hv]]]]]]]]]]].
    + left; split; assumption.
    + right; split; assumption.
Qed.

Lemma tick_counters_witness :
  exists t, run_tick food_ahead_20x20 [] [(0, 0)] = Some t
    /\ width (next t) = 20 /\ score (next t) = 1.
Proof.
  eexists; split; [vm_compute; reflexivity|].
  destruct (tick_counters food_ahead_20x20 [] [(0, 0)]
              (mkTick false
                 (mkGame 20 20 (Some (mkPoint 0 0))
                    (mkSnake [mkPoint 12 10; mkPoint 11 10; mkPoint 10 10;
                              mkPoint 9 10] Right) 0 1) true))
    as [Hw _]; [vm_compute; reflexivity|].
  split; [exact Hw | reflexivity].
Defined.

Lemma in_removelast {A} (a : A) (l : list A) : In a (removelast l) -> In a l.
Proof.
  destruct l as [|b t] using rev_ind; [simpl; tauto|].
  rewrite removelast_last. intros H. apply in_or_app. left. exact H.
Qed.

Lemma place_food_loop_ok (w h : N) (s : Snake) draws (p : Point) :
  place_food_loop w h s draws = Some p ->
  x p < w /\ y p < h /\ ~ In p (body s).
Proof.
  induction draws as [|[rx ry] rest IH]; simpl; [discriminate|].
  unfold gen_range.
  destruct (w <=? 0) eqn:Ew; [discriminate|].
  destruct (h <=? 0) eqn:Eh; [discriminate|].
  destruct (contains_point s _) eqn:Ec; simpl; [exact IH|].
  intros E; inversion E; subst p; clear E. simpl.
  apply N.leb_gt in Ew, Eh. rewrite !N.sub_0_r, !N.add_0_l in *.
  split; [apply N.mod_lt; lia|]. split; [apply N.mod_lt; lia|].
  intros Hin. unfold contains_point in Ec.
  rewrite (proj2 (existsb_point_In _ _) Hin) in Ec. discriminate.
Qed.

Lemma slither_body (s s' : Snake) :
  slither s = Some s' ->
  exists nh, body s' = nh :: removelast (body s) /\ get_head_point s' = Some nh.
Proof.
  unfold slither, get_head_point.
  destruct (body s) as [|h t] eqn:Eb; simpl; [discriminate|].
  destruct (transform h (direction s) 1) as [nh|]; [|discriminate].
  pose proof (vec_remove_last (nh :: h :: t) ltac:(discriminate)) as R.
  simpl in R; rewrite R. intros E; inversion E; subst; simpl.
  exists nh; split; reflexivity.
Qed.

Lemma reachable_food_inv (g : Game) (b : bool) :
  reachable g b ->
  exists p, food g = Some p /\ x p < width g /\ y p < height g
            /\ ~ In p (body (snake g)).
Proof.
  induction 1 as [w h r draws g0 g1 Hn Hp | g cmds draws t _ IH Ht].
  - revert Hp; unfold place_food.
    destruct (place_food_loop _ _ _ _) as [p|] eqn:El; [|discriminate].
    intros E; inversion E; subst; simpl.
    exists p; split; [reflexivity|]. exact (place_food_loop_ok _ _ _ _ _ El).
  - destruct IH as [fp [Hf [Hx [Hy Hn]]]].
    assert (Hb : body (snd (poll_commands (direction (snake g)) (snake g) cmds))
                 = body (snake g)) by apply poll_commands_body.
    destruct (run_tick_cases g cmds draws t Ht) as [[_ [_ E]] | [_ [_ E]]].
    + rewrite E; simpl. rewrite Hb. exists fp; auto.
    + destruct (advance_cases _ _ _ E) as [Hw [Hh [s1 [Es Hc]]]].
      simpl in Hw, Hh, Es. rewrite Hw, Hh.
      destruct Hc as [[Hs [Hf' [_ [_ Hne]]]] | [fp' [s2 [g2 [_ [_ [_ [Ep [Hs [Hf' _]]]]]]]]]].
      * simpl in Hf', Hne. rewrite Hf in Hf'. exists fp.
        split; [exact Hf'|]. split; [exact Hx|]. split; [exact Hy|].
        destruct (slither_body _ _ Es) as [nh [Ebody Eh]].
        rewrite Hs, Ebody, Hb. intros [Heq | Hin].
        -- subst nh. exact (Hne fp Hf Eh).
        -- exact (Hn (in_removelast _ _ Hin)).
      * revert Ep; unfold place_food.
        destruct (place_food_loop _ _ _ _) as [p|] eqn:El; [|discriminate].
        intros E2; inversion E2; subst g2; clear E2.
        simpl in Hf'. exists p. split; [exact Hf'|].
        rewrite Hs. exact (place_food_loop_ok _ _ _ _ _ El).
Qed.

(** In every state the loop reaches there is a food, inside the board and
    on none of the snake's segments. *)
Theorem reachable_food_placed (g : Game) (b : bool) (H : reachable g b) :
  exists p, food g = Some p /\ x p < width g /\ y p < height g
            /\ ~ In p (body (snake g)).
Proof. exact (reachable_food_inv g b H). Qed.

Lemma reachable_food_placed_witness :
  exists g, start_20x20 = Some g
    /\ exists p, food g = Some p /\ x p < width g /\ y p < height g
                /\ ~ In p (body (snake g)).
Proof.
  exists (mkGame 20 20 (Some (mkPoint 0 0))
            (mkSnake [mkPoint 10 10; mkPoint 9 10; mkPoint 8 10] Right) 0 0).
  split; [vm_compute; reflexivity|].
  exact (reachable_food_placed _ true
           (reach_start 20 20 1 [(0, 0)]
              (mkGame 20 20 None
                 (mkSnake [mkPoint 10 10; mkPoint 9 10; mkPoint 8 10] Right) 0 0)
              _ eq_refl eq_refl)).
Defined.

(** In every state the loop reaches the board is at least 1x1 and
    [has_collided_with_wall] returns without panicking. *)
Theorem reachable_wall_check_total (g : Game) (b : bool) (H : reachable g b) :
  1 <= width g /\ 1 <= height g /\ exists c, has_collided_with_wall g = Some c.
Proof.
  destruct (reachable_food_inv g b H) as [p [_ [Hx [Hy _]]]].
  assert (H3 := reachable_length_3 g b H).
  split; [lia|]. split; [lia|].
  unfold has_collided_with_wall, get_head_point, sub16.
  destruct (body (snake g)) as [|hp rest]; [simpl in H3; lia|]. simpl.
  replace (1 <=? width g) with true by (symmetry; apply N.leb_le; lia).
  replace (1 <=? height g) with true by (symmetry; apply N.leb_le; lia).
  destruct (direction (snake g)); eexists; reflexivity.
Qed.

Lemma reachable_wall_check_total_witness :
  exists g, start_20x20 = Some g
    /\ (1 <= width g /\ 1 <= height g /\ exists c, has_collided_with_wall g = Some c).
Proof.
  exists (mkGame 20 20 (Some (mkPoint 0 0))
            (mkSnake [mkPoint 10 10; mkPoint 9 10; mkPoint 8 10] Right) 0 0).
  split; [vm_compute; reflexivity|].
  exact (reachable_wall_check_total _ true
           (reach_start 20 20 1 [(0, 0)]
              (mkGame 20 20 None
                 (mkSnake [mkPoint 10 10; mkPoint 9 10; mkPoint 8 10] Right) 0 0)
              _ eq_refl eq_refl)).
Defined.

(** ** What [render] leaves on the terminal *)

Lemma exec_ops_app (t : Terminal) (a b : list TermOp) :
  exec_ops t (a ++ b) = exec_ops (exec_ops t a) b.
Proof. unfold exec_ops. apply fold_left_app. Qed.

Lemma existsb_pos_In (c r : N) (P : list (N * N)) :
  existsb (fun p => (c =? fst p) && (r =? snd p)) P = true <-> In (c, r) P.
Proof.
  rewrite existsb_exists. split.
  - intros [[a b] [Hin E]]. simpl in E. apply andb_true_iff in E.
    destruct E as [E1 E2]. apply N.eqb_eq in E1, E2. subst. exact Hin.
  - intros Hin. exists (c, r). split; [exact Hin|]. simpl.
    rewrite !N.eqb_refl. reflexivity.
Qed.

Lemma In_range (i lo hi : N) : In i (range lo hi) <-> lo <= i < hi.
Proof.
  unfold range. rewrite in_map_iff. split.
  - intros [k [E Hk]]. apply in_seq in Hk. subst. lia.
  - intros Hi. exists (N.to_nat (i - lo)). split; [lia|]. apply in_seq. lia.
Qed.

(** Printing one character after each [MoveTo] of a list of positions. *)
Lemma exec_marks (a : ascii) (P : list (N * N)) (t : Terminal) :
  let t' := exec_ops t (flat_map (fun p => [MoveTo (fst p) (snd p);
                                            Print (String a EmptyString)]) P) in
  fg t' = fg t
  /\ forall c r, cells t' c r =
       if existsb (fun p => (c =? fst p) && (r =? snd p)) P
       then Some (a, fg t) else cells t c r.
Proof.
  revert t; induction P as [|[c0 r0] P IH]; intros t; simpl.
  - split; [reflexivity|]. intros; reflexivity.
  - destruct (IH (mkTerminal (c0 + 1, r0) (fg t)
                  (fun i j => if (i =? c0) && (j =? r0) then Some (a, fg t)
                              else cells t i j)
                  (raw t) (cursor_visible t) (term_size t))) as [Hf Hc].
    simpl in Hf, Hc. split; [exact Hf|].
    intros c r. rewrite Hc.
    destruct ((c =? c0) && (r =? r0)); simpl;
      destruct (existsb _ P); reflexivity.
Qed.

Lemma flat_map_flat_map {A B C} (f : A -> list B) (g : B -> list C) (l : list A) :
  flat_map g (flat_map f l) = flat_map (fun a => flat_map g (f a)) l.
Proof.
  induction l as [|a l IH]; simpl; [reflexivity|].
  rewrite flat_map_app, IH. reflexivity.
Qed.

Lemma put_string_spec (cl : N -> N -> option (ascii * option Color))
  (col row : N) (s : string) (clr : option Color) (i j : N) :
  put_string cl col row s clr i j =
  if (j =? row) && (col <=? i) && (i <? col + N.of_nat (String.length s))
  then option_map (fun a => (a, clr)) (String.get (N.to_nat (i - col)) s)
  else cl i j.
Proof.
  revert cl col; induction s as [|a s IH]; intros cl col;
    cbn [put_string String.length]; [|rewrite IH].
  - destruct (col <=? i) eqn:E1; rewrite ?andb_false_r; [|reflexivity].
    apply N.leb_le in E1.
    replace (i <? col + N.of_nat 0) with false
      by (symmetry; apply N.ltb_ge; lia).
    rewrite andb_false_r. reflexivity.
  - destruct (N.eqb_spec j row), (N.leb_spec (col + 1) i), (N.leb_spec col i),
      (N.ltb_spec i (col + 1 + N.of_nat (String.length s))),
      (N.ltb_spec i (col + N.of_nat (S (String.length s)))), (N.eqb_spec i col);
      simpl; try lia; try reflexivity.
    + replace (N.to_nat (i - col)) with (S (N.to_nat (i - (col + 1)))) by lia.
      reflexivity.
    + subst. rewrite N.sub_diag. reflexivity.
Qed.

Lemma add16_Some (a b c : N) : add16 a b = Some c -> c = a + b /\ a + b <= U16_MAX.
Proof.
  unfold add16. destruct (a + b <=? U16_MAX) eqn:E; [|discriminate].
  intros H; inversion H; subst. apply N.leb_le in E. auto.
Qed.

Lemma flat_map_map' {A B C} (f : A -> B) (g : B -> list C) (l : list A) :
  flat_map g (map f l) = flat_map (fun a => g (f a)) l.
Proof. induction l as [|a l IH]; simpl; [reflexivity|]. rewrite IH. reflexivity. Qed.

Lemma exec_marks_hit (a : ascii) (P : list (N * N)) (t : Terminal) (c r : N) :
  In (c, r) P ->
  cells (exec_ops t (flat_map (fun p => [MoveTo (fst p) (snd p);
                                         Print (String a EmptyString)]) P)) c r
  = Some (a, fg t).
Proof.
  intros Hin. destruct (exec_marks a P t) as [_ Hc]. rewrite Hc.
  apply existsb_pos_In in Hin. rewrite Hin. reflexivity.
Qed.

Lemma exec_marks_miss (a : ascii) (P : list (N * N)) (t : Terminal) (c r : N) :
  ~ In (c, r) P ->
  cells (exec_ops t (flat_map (fun p => [MoveTo (fst p) (snd p);
                                         Print (String a EmptyString)]) P)) c r
  = cells t c r.
Proof.
  intros Hin. destruct (exec_marks a P t) as [_ Hc]. rewrite Hc.
  destruct (existsb _ P) eqn:E; [|reflexivity].
  apply existsb_pos_In in E. contradiction.
Qed.

Lemma exec_marks_fg (a : ascii) (P : list (N * N)) (t : Terminal) :
  fg (exec_ops t (flat_map (fun p => [MoveTo (fst p) (snd p);
                                      Print (String a EmptyString)]) P)) = fg t.
Proof. apply (exec_marks a P t). Qed.

Lemma draw_borders_cells (g : Game) (b : list TermOp) (t : Terminal) :
  draw_borders g = Some b ->
  let t' := exec_ops t b in
  fg t' = Some DarkGrey
  /\ (forall c r, ((c = 0 \/ c = width g + 1) /\ r <= height g + 1
                   \/ (r = 0 \/ r = height g + 1) /\ c <= width g + 1) ->
        cells t' c r = Some ("#"%char, Some DarkGrey))
  /\ (forall c r, ~ ((c = 0 \/ c = width g + 1) /\ r <= height g + 1
                     \/ (r = 0 \/ r = height g + 1) /\ c <= width g + 1) ->
        cells t' c r = cells t c r).
Proof.
  unfold draw_borders.
  destruct (add16 (height g) 2) as [h2|] eqn:E1; [|discriminate]; simpl.
  destruct (add16 (width g) 1) as [w1|] eqn:E2; [|discriminate]; simpl.
  destruct (add16 (width g) 2) as [w2|] eqn:E3; [|discriminate]; simpl.
  destruct (add16 (height g) 1) as [h1|] eqn:E4; [|discriminate]; simpl.
  apply add16_Some in E1 as [-> _], E2 as [-> _], E3 as [-> _], E4 as [-> _].
  intros H; injection H as <-.
  set (P := flat_map (fun y0 => [(0, y0); (width g + 1, y0)]) (range 0 (height g + 2))
            ++ flat_map (fun x0 => [(x0, 0); (x0, height g + 1)]) (range 0 (width g + 2))
            ++ [(0, 0); (width g + 1, height g + 1); (width g + 1, 0); (0, height g + 1)]).
  set (mk := fun p : N * N => [MoveTo (fst p) (snd p); Print (String "#" EmptyString)]).
  assert (HP : forall c r, In (c, r) P <->
            ((c = 0 \/ c = width g + 1) /\ r <= height g + 1
             \/ (r = 0 \/ r = height g + 1) /\ c <= width g + 1)).
  { intros c r. unfold P. rewrite !in_app_iff, !in_flat_map. split.
    - intros [[y0 [Hy Hin]] | [[x0 [Hx Hin]] | Hin]];
        try rewrite In_range in Hy; try rewrite In_range in Hx; simpl in Hin;
        repeat destruct Hin as [Hin|Hin]; try contradiction;
        inversion Hin; subst; lia.
    - intros [[[-> | ->] Hr] | [[-> | ->] Hc]].
      + left. exists r. rewrite In_range. split; [lia|]. simpl; auto.
      + left. exists r. rewrite In_range. split; [lia|]. simpl; auto.
      + right; left. exists c. rewrite In_range. split; [lia|]. simpl; auto.
      + right; left. exists c. rewrite In_range. split; [lia|]. simpl; auto. }
  cbv zeta.
  match goal with |- context [exec_ops t ?l] =>
    replace l with ([SetForegroundColor DarkGrey] ++ flat_map mk P)
      by (unfold P; rewrite !flat_map_app, !flat_map_flat_map; reflexivity)
  end.
  rewrite exec_ops_app. unfold mk.
  split; [rewrite exec_marks_fg; reflexivity|]. split.
  - intros c r Hb. rewrite exec_marks_hit; [reflexivity|]. apply HP, Hb.
  - intros c r Hb. rewrite exec_marks_miss; [reflexivity|].
    rewrite HP. exact Hb.
Qed.

Lemma draw_background_cells (g : Game) (bg : list TermOp) (t : Terminal) :
  draw_background g = Some bg ->
  let t' := exec_ops t bg in
  fg t' = None
  /\ (forall c r, 1 <= c <= width g -> 1 <= r <= height g ->
        cells t' c r = Some (" "%char, None))
  /\ (forall c r, ~ (1 <= c <= width g /\ 1 <= r <= height g) ->
        cells t' c r = cells t c r).
Proof.
  unfold draw_background.
  destruct (add16 (height g) 1) as [h1|] eqn:E1; [|discriminate]; simpl.
  destruct (add16 (width g) 1) as [w1|] eqn:E2; [|discriminate]; simpl.
  apply add16_Some in E1 as [-> _], E2 as [-> _].
  intros H; injection H as <-. cbv zeta.
  set (P := flat_map (fun y0 => map (fun x0 => (x0, y0)) (range 1 (width g + 1)))
              (range 1 (height g + 1))).
  set (mk := fun p : N * N => [MoveTo (fst p) (snd p); Print (String " " EmptyString)]).
  assert (HP : forall c r, In (c, r) P <-> 1 <= c <= width g /\ 1 <= r <= height g).
  { intros c r. unfold P. rewrite in_flat_map. split.
    - intros [y0 [Hy Hin]]. apply in_map_iff in Hin as [x0 [E Hx]].
      inversion E; subst. rewrite In_range in Hy, Hx. lia.
    - intros Hcr. exists r. rewrite In_range. split; [lia|].
      apply in_map_iff. exists c. rewrite In_range. split; [reflexivity|lia]. }
  match goal with |- context [exec_ops t ?l] =>
    replace l with ([ResetColor] ++ flat_map mk P)
      by (unfold P; rewrite flat_map_flat_map; simpl; f_equal;
          apply flat_map_ext; intros y0; rewrite flat_map_map'; reflexivity)
  end.
  rewrite exec_ops_app. unfold mk.
  split; [rewrite exec_marks_fg; reflexivity|]. split.
  - intros c r Hc Hr. rewrite exec_marks_hit; [reflexivity|]. apply HP; auto.
  - intros c r Hb. rewrite exec_marks_miss; [reflexivity|].
    rewrite HP. exact Hb.
Qed.

Lemma draw_segments_tail (i : nat) (l : list Point) (ops : list TermOp) :
  draw_segments (S i) l = Some ops ->
  ops = flat_map (fun p => [MoveTo (fst p) (snd p); Print (String "s" EmptyString)])
          (map (fun q => (x q + 1, y q + 1)) l).
Proof.
  revert i ops; induction l as [|q l IH]; intros i ops; simpl.
  - intros H; injection H as <-. reflexivity.
  - destruct (add16 (x q) 1) as [c|] eqn:E1; [|discriminate]; simpl.
    destruct (add16 (y q) 1) as [r|] eqn:E2; [|discriminate]; simpl.
    destruct (draw_segments (S (S i)) l) as [rest|] eqn:E3; [|discriminate]; simpl.
    apply add16_Some in E1 as [-> _], E2 as [-> _].
    intros H; injection H as <-. rewrite (IH _ _ E3). reflexivity.
Qed.

Lemma draw_snake_cells (g : Game) (s : list TermOp) (t : Terminal)
  (hp : Point) (rest : list Point) :
  draw_snake g = Some s -> body (snake g) = hp :: rest ->
  let t' := exec_ops t s in
  let col := Some (snake_color (speed g)) in
  fg t' = col
  /\ (forall q, In q rest -> cells t' (x q + 1) (y q + 1) = Some ("s"%char, col))
  /\ (forall c r, (forall q, In q rest -> (x q + 1, y q + 1) <> (c, r)) ->
        (x hp + 1, y hp + 1) = (c, r) -> cells t' c r = Some ("S"%char, col))
  /\ (forall c r, (forall q, In q (body (snake g)) -> (x q + 1, y q + 1) <> (c, r)) ->
        cells t' c r = cells t c r).
Proof.
  unfold draw_snake. intros H Hb. rewrite Hb in H |- *. simpl in H.
  destruct (add16 (x hp) 1) as [c0|] eqn:E1; [|discriminate]; simpl in H.
  destruct (add16 (y hp) 1) as [r0|] eqn:E2; [|discriminate]; simpl in H.
  destruct (draw_segments 1 rest) as [segs|] eqn:E3; [|discriminate]; simpl in H.
  apply add16_Some in E1 as [-> _], E2 as [-> _].
  apply draw_segments_tail in E3. subst segs.
  injection H as <-. cbv zeta.
  set (P := map (fun q => (x q + 1, y q + 1)) rest).
  assert (HP : forall c r, In (c, r) P <-> exists q, In q rest /\ (x q + 1, y q + 1) = (c, r)).
  { intros c r. unfold P. rewrite in_map_iff. split; intros [q [E Hq]]; eauto. }
  match goal with |- context [exec_ops t ?l] =>
    replace l with ([SetForegroundColor (snake_color (speed g))]
          ++ flat_map (fun p => [MoveTo (fst p) (snd p); Print (String "S" EmptyString)])
               [(x hp + 1, y hp + 1)]
          ++ flat_map (fun p => [MoveTo (fst p) (snd p); Print (String "s" EmptyString)]) P)
      by reflexivity
  end.
  rewrite !exec_ops_app.
  split; [rewrite !exec_marks_fg; reflexivity|]. split; [|split].
  - intros q Hq. rewrite exec_marks_hit; [rewrite exec_marks_fg; reflexivity|].
    apply HP. eauto.
  - intros c r Hn Eh. rewrite exec_marks_miss.
    + rewrite exec_marks_hit; [reflexivity|]. rewrite Eh. left; reflexivity.
    + rewrite HP. intros [q [Hq E]]. exact (Hn q Hq E).
  - intros c r Hn. rewrite exec_marks_miss.
    + rewrite exec_marks_miss; [reflexivity|]. intros [E|[]].
      exact (Hn hp (or_introl eq_refl) E).
    + rewrite HP. intros [q [Hq E]]. exact (Hn q (or_intror Hq) E).
Qed.

Lemma draw_food_cells (g : Game) (f : list TermOp) (t : Terminal) :
  draw_food g = Some f ->
  let t' := exec_ops t f in
  fg t' = Some White
  /\ (forall p, food g = Some p -> cells t' (x p + 1) (y p + 1) = Some ("A"%char, Some White))
  /\ (forall c r, (forall p, food g = Some p -> (x p + 1, y p + 1) <> (c, r)) ->
        cells t' c r = cells t c r).
Proof.
  unfold draw_food. destruct (food g) as [fp|] eqn:Ef.
  - destruct (add16 (x fp) 1) as [c0|] eqn:E1; [|discriminate]; simpl.
    destruct (add16 (y fp) 1) as [r0|] eqn:E2; [|discriminate]; simpl.
    apply add16_Some in E1 as [-> _], E2 as [-> _].
    intros H; injection H as <-. cbv zeta.
    match goal with |- context [exec_ops t ?l] =>
      replace l with ([SetForegroundColor White]
            ++ flat_map (fun p => [MoveTo (fst p) (snd p); Print (String "A" EmptyString)])
                 [(x fp + 1, y fp + 1)])
        by reflexivity
    end.
    rewrite exec_ops_app.
    split; [rewrite exec_marks_fg; reflexivity|]. split.
    + intros p E; injection E as <-. rewrite exec_marks_hit; [reflexivity|]. left; reflexivity.
    + intros c r Hn. rewrite exec_marks_miss; [reflexivity|].
      intros [E|[]]. exact (Hn fp eq_refl E).
  - intros H; injection H as <-. simpl.
    split; [reflexivity|]. split; [discriminate|]. reflexivity.
Qed.

Lemma draw_score_cells (g : Game) (sc : list TermOp) (t : Terminal) :
  draw_score g = Some sc ->
  let t' := exec_ops t sc in
  let line := ("Score: " ++ decimal (score g))%string in
  (forall i, i < N.of_nat (String.length line) ->
     cells t' i (height g + 2) = option_map (fun a => (a, Some White))
                                   (String.get (N.to_nat i) line))
  /\ (forall c r, r <> height g + 2 -> cells t' c r = cells t c r).
Proof.
  unfold draw_score.
  destruct (add16 (height g) 2) as [h2|] eqn:E1; [|discriminate]; simpl.
  apply add16_Some in E1 as [-> _].
  intros H; injection H as <-. cbv zeta. unfold exec_ops.
  cbn [fold_left exec_op cells cursor fg raw cursor_visible term_size].
  split.
  - intros i Hi. rewrite put_string_spec, N.eqb_refl, N.sub_0_r.
    replace (0 <=? i) with true by (symmetry; apply N.leb_le; lia).
    match goal with |- context [i <? ?e] =>
      replace (i <? e) with true by (symmetry; apply N.ltb_lt; simpl in Hi |- *; lia)
    end.
    reflexivity.
  - intros c r Hr. rewrite put_string_spec.
    replace (r =? height g + 2) with false by (symmetry; apply N.eqb_neq; exact Hr).
    reflexivity.
Qed.

Lemma render_parts (g : Game) (ops : list TermOp) :
  render g = Some ops ->
  exists b bg s f sc,
    draw_borders g = Some b /\ draw_background g = Some bg /\ draw_snake g = Some s
    /\ draw_food g = Some f /\ draw_score g = Some sc /\ ops = b ++ bg ++ s ++ f ++ sc.
Proof.
  unfold render.
  destruct (draw_borders g) as [b|]; [|discriminate]; simpl.
  destruct (draw_background g) as [bg|]; [|discriminate]; simpl.
  destruct (draw_snake g) as [s|]; [|discriminate]; simpl.
  destruct (draw_food g) as [f|]; [|discriminate]; simpl.
  destruct (draw_score g) as [sc|]; [|discriminate]; simpl.
  intros H; injection H as <-. exists b, bg, s, f, sc. auto 10.
Qed.

Lemma shift_inj (p q : Point) : (x p + 1, y p + 1) = (x q + 1, y q + 1) -> p = q.
Proof.
  destruct p as [px py], q as [qx qy]; simpl. intros E; inversion E.
  f_equal; lia.
Qed.

(** Unfolds [render] into its five drawing steps over the terminal. *)
Ltac render_steps H t :=
  let b := fresh "b" in let bg := fresh "bg" in let s := fresh "s" in
  let f := fresh "f" in let sc := fresh "sc" in
  let Hb := fresh "Hb" in let Hbg := fresh "Hbg" in let Hs := fresh "Hs" in
  let Hf := fresh "Hf" in let Hsc := fresh "Hsc" in
  apply render_parts in H as [b [bg [s [f [sc [Hb [Hbg [Hs [Hf [Hsc ->]]]]]]]]]];
  rewrite !exec_ops_app;
  pose proof (draw_borders_cells _ _ t Hb) as [Bfg [Bhit Bmiss]];
  pose proof (draw_background_cells _ _ (exec_ops t b) Hbg) as [Gfg [Ghit Gmiss]];
  pose proof (draw_food_cells _ _
                (exec_ops (exec_ops (exec_ops t b) bg) s) Hf) as [Ffg [Fhit Fmiss]];
  pose proof (draw_score_cells _ _
                (exec_ops (exec_ops (exec_ops (exec_ops t b) bg) s) f) Hsc)
    as [Shit Smiss];
  cbv zeta in *.

Lemma draw_snake_miss (g : Game) (s : list TermOp) (t : Terminal) (c r : N) :
  draw_snake g = Some s ->
  (forall q, In q (body (snake g)) -> (x q + 1, y q + 1) <> (c, r)) ->
  cells (exec_ops t s) c r = cells t c r.
Proof.
  intros H Hn. destruct (body (snake g)) as [|hp rest] eqn:Eb.
  - unfold draw_snake in H. rewrite Eb in H. simpl in H.
    injection H as <-. reflexivity.
  - apply (draw_snake_cells g s t hp rest H Eb). rewrite Eb. exact Hn.
Qed.

(** Every border cell of the board shows a dark grey '#' after [render],
    as long as the snake and the food lie on the board. *)
Theorem render_borders (g : Game) (ops : list TermOp) (t : Terminal)
  (H : render g = Some ops)
  (Hsn : forall q, In q (body (snake g)) -> x q < width g /\ y q < height g)
  (Hfd : forall p, food g = Some p -> x p < width g /\ y p < height g)
  (c r : N)
  (Hcr : (c = 0 \/ c = width g + 1) /\ r <= height g + 1
         \/ (r = 0 \/ r = height g + 1) /\ c <= width g + 1) :
  cells (exec_ops t ops) c r = Some ("#"%char, Some DarkGrey).
Proof.
  render_steps H t.
  rewrite Smiss by lia. rewrite Fmiss.
  2: { intros p Hp E. apply Hfd in Hp. inversion E. lia. }
  rewrite (draw_snake_miss g s).
  2: exact Hs.
  2: { intros q Hq E. apply Hsn in Hq. inversion E. lia. }
  rewrite Gmiss by lia. apply Bhit, Hcr.
Qed.

(** After [render], a cell inside the board that holds neither a snake
    segment nor the food is a blank with the default colour. *)
Theorem render_blank_interior (g : Game) (ops : list TermOp) (t : Terminal)
  (H : render g = Some ops) (c r : N)
  (Hc : 1 <= c <= width g) (Hr : 1 <= r <= height g)
  (Hsn : forall q, In q (body (snake g)) -> (x q + 1, y q + 1) <> (c, r))
  (Hfd : forall p, food g = Some p -> (x p + 1, y p + 1) <> (c, r)) :
  cells (exec_ops t ops) c r = Some (" "%char, None).
Proof.
  render_steps H t.
  rewrite Smiss by lia. rewrite Fmiss by exact Hfd.
  rewrite (draw_snake_miss g s _ _ _ Hs Hsn).
  apply Ghit; assumption.
Qed.

(** After [render], the food's cell shows a white 'A', as long as the
    food lies above the score line ([y <= height], so that its cell is on a
    row up to [height + 1]). *)
Theorem render_food (g : Game) (ops : list TermOp) (t : Terminal)
  (H : render g = Some ops) (p : Point)
  (Hp : food g = Some p) (Hy : y p <= height g) :
  cells (exec_ops t ops) (x p + 1) (y p + 1) = Some ("A"%char, Some White).
Proof.
  render_steps H t.
  rewrite Smiss by lia. apply Fhit, Hp.
Qed.

(** After [render], the head's cell shows 'S' and every other segment's
    cell 's', in the colour picked by [speed mod 3], as long as the snake
    lies above the score line and no segment lies under the food; a head
    that shares its cell with a later segment is drawn over with 's'. *)
Theorem render_snake (g : Game) (ops : list TermOp) (t : Terminal)
  (H : render g = Some ops) (hp : Point) (rest : list Point)
  (Hb : body (snake g) = hp :: rest)
  (Hsn : forall q, In q (body (snake g)) -> y q < height g)
  (Hfd : forall q, In q (body (snake g)) -> food g <> Some q) :
  (~ In hp rest ->
   cells (exec_ops t ops) (x hp + 1) (y hp + 1)
   = Some ("S"%char, Some (snake_color (speed g))))
  /\ (forall q, In q rest ->
      cells (exec_ops t ops) (x q + 1) (y q + 1)
      = Some ("s"%char, Some (snake_color (speed g)))).
Proof.
  pose proof (Hsn hp) as Hhp. rewrite Hb in Hhp. specialize (Hhp (or_introl eq_refl)).
  render_steps H t.
  pose proof (draw_snake_cells g s (exec_ops (exec_ops t b) bg) hp rest Hs Hb)
    as [_ [Khit [Khead _]]].
  split.
  - intros Hn. rewrite Smiss by lia. rewrite Fmiss.
    + apply Khead; [|reflexivity].
      intros q Hq E. apply shift_inj in E. subst q. contradiction.
    + intros p Hp E. apply shift_inj in E. subst p.
      apply (Hfd hp); [rewrite Hb; left; reflexivity | exact Hp].
  - intros q Hq.
    assert (Hq' : In q (body (snake g))) by (rewrite Hb; right; exact Hq).
    rewrite Smiss by (specialize (Hsn q Hq'); lia). rewrite Fmiss.
    + apply Khit, Hq.
    + intros p Hp E. apply shift_inj in E. subst p. exact (Hfd q Hq' Hp).
Qed.

(** After [render], row [height + 2] starts with the text
    "Score: " followed by the decimal score, in white. *)
Theorem render_score (g : Game) (ops : list TermOp) (t : Terminal)
  (H : render g = Some ops) (i : N)
  (Hi : i < N.of_nat (String.length ("Score: " ++ decimal (score g)))) :
  cells (exec_ops t ops) i (height g + 2)
  = option_map (fun a => (a, Some White))
      (String.get (N.to_nat i) ("Score: " ++ decimal (score g))).
Proof.
  render_steps H t.
  apply Shit, Hi.
Qed.

Lemma render_borders_witness :
  exists ops, render food_ahead_20x20 = Some ops
    /\ cells (exec_ops blank_terminal ops) 21 7 = Some ("#"%char, Some DarkGrey).
Proof.
  exists (match render food_ahead_20x20 with Some o => o | None => [] end).
  split; [vm_compute; reflexivity|].
  apply (render_borders food_ahead_20x20 _ blank_terminal).
  - vm_compute; reflexivity.
  - intros q Hq; simpl in Hq.
    repeat (destruct Hq as [<-|Hq]; [simpl; lia|]); contradiction.
  - intros p Hp; injection Hp as <-; simpl; lia.
  - simpl; lia.
Defined.

Lemma render_blank_interior_witness :
  exists ops, render food_ahead_20x20 = Some ops
    /\ cells (exec_ops blank_terminal ops) 5 5 = Some (" "%char, None).
Proof.
  exists (match render food_ahead_20x20 with Some o => o | None => [] end).
  split; [vm_compute; reflexivity|].
  apply (render_blank_interior food_ahead_20x20 _ blank_terminal).
  - vm_compute; reflexivity.
  - simpl; lia.
  - simpl; lia.
  - intros q Hq; simpl in Hq.
    repeat (destruct Hq as [<-|Hq]; [simpl; discriminate|]); contradiction.
  - intros p Hp; injection Hp as <-; simpl; discriminate.
Defined.

Lemma render_food_witness :
  exists ops, render food_ahead_20x20 = Some ops
    /\ cells (exec_ops blank_terminal ops) 12 11 = Some ("A"%char, Some White).
Proof.
  exists (match render food_ahead_20x20 with Some o => o | None => [] end).
  split; [vm_compute; reflexivity|].
  refine (render_food food_ahead_20x20 _ blank_terminal _ (mkPoint 11 10) _ _).
  - vm_compute; reflexivity.
  - reflexivity.
  - simpl; lia.
Defined.

Lemma render_snake_witness :
  exists ops, render food_ahead_20x20 = Some ops
    /\ (~ In (mkPoint 10 10) [mkPoint 9 10; mkPoint 8 10] ->
        cells (exec_ops blank_terminal ops) 11 11 = Some ("S"%char, Some Green))
    /\ (forall q, In q [mkPoint 9 10; mkPoint 8 10] ->
        cells (exec_ops blank_terminal ops) (x q + 1) (y q + 1) = Some ("s"%char, Some Green)).
Proof.
  exists (match render food_ahead_20x20 with Some o => o | None => [] end).
  split; [vm_compute; reflexivity|].
  refine (render_snake food_ahead_20x20 _ blank_terminal _ (mkPoint 10 10)
            [mkPoint 9 10; mkPoint 8 10] _ _ _).
  - vm_compute; reflexivity.
  - reflexivity.
  - intros q Hq; simpl in Hq.
    repeat (destruct Hq as [<-|Hq]; [simpl; lia|]); contradiction.
  - intros q Hq; simpl in Hq.
    repeat (destruct Hq as [<-|Hq]; [simpl; discriminate|]); contradiction.
Defined.

Lemma render_score_witness :
  exists ops, render food_ahead_20x20 = Some ops
    /\ cells (exec_ops blank_terminal ops) 7 22 = Some ("0"%char, Some White).
Proof.
  exists (match render food_ahead_20x20 with Some o => o | None => [] end).
  split; [vm_compute; reflexivity|].
  refine (render_score food_ahead_20x20 _ blank_terminal _ 7 _).
  - vm_compute; reflexivity.
  - vm_compute; reflexivity.
Defined.

Lemma run_loop_reachable (g : Game) (t : Terminal)
  (inputs : list (list Command * list (N * N))) (g' : Game) (t' : Terminal) :
  reachable g true -> run_loop g t inputs = Some (g', t') -> reachable g' false.
Proof.
  revert g t; induction inputs as [|[cmds draws] rest IH]; intros g t Hr H;
    simpl in H; [discriminate|].
  destruct (run_tick g cmds draws) as [tk|] eqn:Etk; [|discriminate]; simpl in H.
  pose proof (reach_tick g cmds draws tk Hr Etk) as Hn.
  destruct (if rendered tk then render (next tk) else Some []) as [ops|];
    [|discriminate]; simpl in H.
  destruct (done tk) eqn:Ed.
  - injection H as <- _. exact Hn.
  - exact (IH _ _ Hn H).
Qed.

(** After [Game::run], the terminal is back out of raw mode at its original
    size, with the cursor shown, the colour reset and the screen cleared; the
    last line reports the score of the final game, which the loop reached by
    ticks from a fresh game and in which the loop had ended. *)
Theorem run_restores_terminal (w h r : N) (draws0 : list (N * N))
  (inputs : list (list Command * list (N * N))) (t0 : Terminal)
  (g : Game) (t : Terminal) (msg : string)
  (H : run w h r draws0 inputs t0 = Some (g, t, msg)) :
  raw t = false /\ cursor_visible t = true /\ term_size t = term_size t0
  /\ fg t = None /\ (forall c r, cells t c r = None)
  /\ msg = ("Game Over! Your score is " ++ decimal (score g))%string
  /\ reachable g false.
Proof.
  unfold run in H.
  destruct (game_new w h r) as [g0|] eqn:E0; [|discriminate]; simpl in H.
  destruct (place_food g0 draws0) as [g1|] eqn:E1; [|discriminate]; simpl in H.
  destruct (prepare_ui g1) as [p|]; [|discriminate]; simpl in H.
  destruct (render g1) as [r0|]; [|discriminate]; simpl in H.
  destruct (run_loop g1 _ inputs) as [[gf tf]|] eqn:El; [|discriminate]; simpl in H.
  injection H as <- <- <-. simpl. destruct (term_size t0) as [cols rows].
  repeat split; try reflexivity.
  exact (run_loop_reachable _ _ _ _ _ (reach_start w h r draws0 g0 g1 E0 E1) El).
Qed.

Lemma run_restores_terminal_witness :
  let res := run 20 20 1 [(0, 0)] [([Quit], [])] blank_terminal in
  let g := match res with Some (g, _, _) => g | None => food_ahead_20x20 end in
  let t := match res with Some (_, t, _) => t | None => blank_terminal end in
  let msg := match res with Some (_, _, m) => m | None => EmptyString end in
  run 20 20 1 [(0, 0)] [([Quit], [])] blank_terminal = Some (g, t, msg)
  /\ (raw t = false /\ cursor_visible t = true /\ term_size t = term_size blank_terminal
      /\ fg t = None /\ (forall c r, cells t c r = None)
      /\ msg = ("Game Over! Your score is " ++ decimal (score g))%string
      /\ reachable g false).
Proof.
  intros res g t msg.
  assert (E : run 20 20 1 [(0, 0)] [([Quit], [])] blank_terminal = Some (g, t, msg))
    by (vm_compute; reflexivity).
  split; [exact E|].
  exact (run_restores_terminal 20 20 1 [(0, 0)] [([Quit], [])] blank_terminal g t msg E).
Defined.

Lemma game_new_counters (w h r : N) (g : Game) :
  game_new w h r = Some g -> score g = 0 /\ speed g = 0.
Proof.
  unfold game_new. destruct (gen_range 0 4 r); [|discriminate]. simpl.
  destruct (snake_new _ _ _); [|discriminate]. simpl.
  intros E; inversion E; auto.
Qed.

(** In every state the loop reaches, the snake is three segments plus one
    per point scored, and the speed never exceeds the score. *)
Theorem reachable_length_score (g : Game) (b : bool) (H : reachable g b) :
  List.length (body (snake g)) = (3 + N.to_nat (score g))%nat /\ speed g <= score g.
Proof.
  induction H as [w h r draws g0 g1 Hn Hp | g cmds draws t _ [IHl IHs] Ht].
  - destruct (place_food_fields _ _ _ Hp) as [_ [_ [Hs [Hsp Hsc]]]].
    destruct (game_new_counters _ _ _ _ Hn) as [Hc0 Hv0].
    rewrite Hs, Hsp, Hsc, (game_new_length _ _ _ _ Hn), Hc0, Hv0. lia.
  - destruct (run_tick_cases g cmds draws t Ht) as [[_ [_ E]] | [_ [_ E]]].
    + rewrite E. simpl. rewrite poll_commands_body. lia.
    + destruct (advance_cases _ _ _ E) as [_ [_ [s1 [Es C]]]].
      apply slither_length in Es. simpl in Es. rewrite poll_commands_body in Es.
      destruct C as [[Hs [_ [Hsp [Hsc _]]]] | [fp [s2 [g2 [_ [_ [Eg [_ [Hs [_ [Hsc Hsp]]]]]]]]]]];
        simpl in *.
      * rewrite Hs, Hsp, Hsc, Es. lia.
      * apply grow_length in Eg. rewrite Hs, Hsc, Eg, Es. lia.
Qed.

Lemma reachable_length_score_witness :
  exists g, start_20x20 = Some g
    /\ (List.length (body (snake g)) = (3 + N.to_nat (score g))%nat /\ speed g <= score g).
Proof.
  exists (mkGame 20 20 (Some (mkPoint 0 0))
            (mkSnake [mkPoint 10 10; mkPoint 9 10; mkPoint 8 10] Right) 0 0).
  split; [vm_compute; reflexivity|].
  exact (reachable_length_score _ true
           (reach_start 20 20 1 [(0, 0)]
              (mkGame 20 20 None
                 (mkSnake [mkPoint 10 10; mkPoint 9 10; mkPoint 8 10] Right) 0 0)
              _ eq_refl eq_refl)).
Defined.

(** On a board with no column or no row, [place_food] panics: one of its
    [gen_range(0, 0)] calls has an empty range. *)
Theorem place_food_empty_board (g : Game) (draws : list (N * N))
  (H : width g = 0 \/ height g = 0) :
  place_food g draws = None.
Proof.
  unfold place_food.
  replace (place_food_loop (width g) (height g) (snake g) draws) with (@None Point);
    [reflexivity|].
  induction draws as [|[rx ry] rest IH]; simpl; [reflexivity|].
  destruct H as [H|H]; rewrite H; unfold gen_range; simpl; [reflexivity|].
  destruct (width g <=? 0); reflexivity.
Qed.

Lemma place_food_empty_board_witness :
  width (mkGame 0 5 None (mkSnake [mkPoint 0 2] Up) 0 0) = 0
  /\ place_food (mkGame 0 5 None (mkSnake [mkPoint 0 2] Up) 0 0) [(3, 4); (1, 1)] = None.
Proof.
  split; [reflexivity|].
  apply place_food_empty_board. left; reflexivity.
Defined.
